(** * openpaisdk: CLI helper utilities and the API test-case table

    A shallow embedding of [src/commands/utils.ts] and of the static table
    of [tests/common/apiTestCases.ts], with the properties their
    specification states about them.

    Layout: the JavaScript data the two files handle ([JS]), the embedding
    of [utils.ts] ([Utils]) with reference models of the libraries it calls
    ([Reference]), the embedding of [apiTestCases.ts] ([ApiTestCases]),
    the vocabulary of the statements ([UtilsSpec], [TableSpec]); then the
    theorems ([UtilsFacts], [TableFacts]).  The customized tests of
    [apiTestCases.ts] ([CustomizedTests]) and further properties
    ([UtilsMore], [TableMore], [HookFacts]) follow the same layout. *)

From Stdlib Require Import ZArith Ascii String List Strings.Byte Lia.
From stdpp Require Import base decidable option list gmap strings pretty.

Set Warnings "-register-all".

(* ================================================================== *)
(** * JavaScript data *)
(* ================================================================== *)

Module JS.

(** An argument of a function, as far as absence goes: the caller may
    leave it out or pass [undefined] ([Undefined]), pass [null], or pass
    another value. *)
Inductive arg (A : Type) : Type :=
| Undefined
| Null
| Given (a : A).
Arguments Undefined {A}.
Arguments Null {A}.
Arguments Given {A} a.

(** Structured values: what an object literal of the table is made of, and
    what a JSON file holds.  An object keeps its own properties in
    insertion order. *)
Inductive value : Type :=
| JNull
| JBool (b : bool)
| JNum (n : Z)
| JStr (s : string)
| JArr (items : list value)
| JObj (props : list (string * value)).

Definition value_is_null (v : value) : bool :=
  match v with
  | JNull => true
  | _ => false
  end.

(** [x == null] for an [x] that is [undefined] ([None]) or a value. *)
Definition eq_null {A} (is_null : A -> bool) (x : option A) : bool :=
  match x with
  | None => true
  | Some a => is_null a
  end.

(** [o.k]: the value of the own property [k]; [None] stands for
    [undefined]. *)
Fixpoint lookup_prop (k : string) (props : list (string * value)) : option value :=
  match props with
  | [] => None
  | (k', v) :: rest => if String.eqb k k' then Some v else lookup_prop k rest
  end.

Definition field (k : string) (v : value) : option value :=
  match v with
  | JObj props => lookup_prop k props
  | _ => None
  end.

(** The elements of an array-valued property that may be absent. *)
Definition elements (o : option value) : list value :=
  match o with
  | Some (JArr items) => items
  | _ => []
  end.

(** [o[k] = v] on an object: an existing property keeps its place and
    takes the new value, a new one goes last. *)
Fixpoint assign (k : string) (v : value) (props : list (string * value))
  : list (string * value) :=
  match props with
  | [] => [(k, v)]
  | (k', v') :: rest =>
      if String.eqb k k' then (k', v) :: rest else (k', v') :: assign k v rest
  end.

(** [{...a, ...b}]: the properties of [a], then those of [b] assigned over
    them in order. *)
Definition spread (a b : list (string * value)) : list (string * value) :=
  fold_left (fun acc kv => assign (fst kv) (snd kv) acc) b a.

Definition own_props (v : value) : list (string * value) :=
  match v with
  | JObj props => props
  | _ => []
  end.

Definition spread_obj (a b : value) : value :=
  JObj (spread (spread [] (own_props a)) (own_props b)).

(** [s.split(sep)] for a one-character separator: the pieces between the
    occurrences of [sep]; a string without [sep] is its own single piece,
    the empty string included. *)
Fixpoint split (sep : ascii) (s : string) : list string :=
  match s with
  | EmptyString => [EmptyString]
  | String c rest =>
      if Ascii.eqb c sep then EmptyString :: split sep rest
      else match split sep rest with
           | [] => [String c EmptyString]
           | piece :: pieces => String c piece :: pieces
           end
  end.

(** How often the character [c] occurs in [s]. *)
Fixpoint occurrences (c : ascii) (s : string) : nat :=
  match s with
  | EmptyString => 0
  | String c' rest => (if Ascii.eqb c' c then 1 else 0) + occurrences c rest
  end.

(** Truthiness of an optional string field: [undefined] and the empty
    string are falsy. *)
Definition truthy (o : option string) : bool :=
  match o with
  | None => false
  | Some EmptyString => false
  | Some (String _ _) => true
  end.

End JS.

(* ================================================================== *)
(** * [src/commands/utils.ts] *)
(* ================================================================== *)

Module Utils.
Import JS.

(** ** The world the helpers run in *)

(** What a failed call throws.  [fs.readJson] fails when the file is
    missing ([ENOENT]) or when its text is no JSON ([SyntaxError]);
    [Error e] is [new Error(e)]; [TemplateError] is what the template
    engine throws for a template it rejects.  [Unmodelled] is no error of
    the platform: a reference model of a library answers with it where it
    does not follow the library. *)
Inductive error : Type :=
| ENOENT (pth : string)
| SyntaxError (pth : string)
| Error (cause : error)
| TemplateError
| Unmodelled.

(** What a call leaves behind besides its result: console output, the
    debug channel of [Util], and the calls made to the template engine. *)
Inductive event : Type :=
| ConsoleLog (msg : string)
| ConsoleWarn (msg : string)
| UtilDebug (msg : string) (data : option value)
| NunjucksConfigure (autoescape : bool)
| NunjucksRenderString (template : string) (context : gmap string string).

(** The file store (directories, and regular files with their text) and
    the events so far, oldest first. *)
Record world : Type := World {
  dirs : gset string;
  files : gmap string string;
  trace : list event
}.

Definition emit (e : event) (w : world) : world :=
  World (dirs w) (files w) (trace w ++ [e]).

(** A call returns a result or throws. *)
Inductive outcome (A : Type) : Type :=
| Ok (a : A)
| Throw (e : error).
Arguments Ok {A} a.
Arguments Throw {A} e.

(** The libraries the helpers call, as far as the helpers use them:
    [path.dirname], the text [fs.writeJSON] writes for a value and the
    value [fs.readJson] reads from a text, the message of an error, and
    the rendering of a template in a context by an engine configured with
    [autoescape], which returns the rendered text or throws. *)
Class Platform : Type := {
  dirname : string -> string;
  JSON_stringify : value -> string;
  JSON_parse : string -> option value;
  message : error -> string;
  renderString : bool -> string -> gmap string string -> outcome string
}.

(** ** Computations that may throw *)

Definition IO (A : Type) : Type := world -> outcome A * world.

Definition ret {A} (a : A) : IO A := fun w => (Ok a, w).

Definition throw {A} (e : error) : IO A := fun w => (Throw e, w).

Definition bind {A B} (c : IO A) (k : A -> IO B) : IO B :=
  fun w =>
    match c w with
    | (Ok a, w') => k a w'
    | (Throw e, w') => (Throw e, w')
    end.

(** [try { c } catch (e) { handler e }]. *)
Definition try_catch {A} (c : IO A) (handler : error -> IO A) : IO A :=
  fun w =>
    match c w with
    | (Ok a, w') => (Ok a, w')
    | (Throw e, w') => handler e w'
    end.

Definition log (e : event) : IO unit := fun w => (Ok tt, emit e w).

(** A call that returns or throws and leaves the world as it is. *)
Definition lift {A} (result : outcome A) : IO A := fun w => (result, w).

Declare Scope io_scope.
Delimit Scope io_scope with io.
Notation "x <- c ;; k" := (bind c (fun x => k))
  (at level 100, c at next level, right associativity) : io_scope.
Notation "c ;; k" := (bind c (fun _ => k))
  (at level 100, right associativity) : io_scope.
Open Scope io_scope.

(** [for (const x of xs) { acc = body acc x }]. *)
Fixpoint for_of {A S} (body : S -> A -> IO S) (acc : S) (xs : list A) : IO S :=
  match xs with
  | [] => ret acc
  | x :: rest => acc' <- body acc x ;; for_of body acc' rest
  end.

(** ** The calls into [fs-extra] *)

(** The store has directories and regular files under the paths they
    were given; it has no links and no permissions, and it refuses
    nothing but a file in a directory that does not exist. *)

Section Helpers.
Context `{platform : Platform}.

(** The directory [d] and the directories above it, found by taking
    [dirname] until it no longer changes the path. *)
Fixpoint upwards (fuel : nat) (d : string) : list string :=
  match fuel with
  | O => [d]
  | S fuel' =>
      if String.eqb (dirname d) d then [d] else d :: upwards fuel' (dirname d)
  end.

(** Modelled from the spec: [fs.ensureDir] of the library [fs-extra],
    which is not part of the sources.  Afterwards [d] and every directory
    above it exist; those that existed stay. *)
Definition fs_ensureDir (d : string) : IO unit :=
  fun w =>
    (Ok tt,
     World (dirs w ∪ list_to_set (upwards (String.length d) d)) (files w) (trace w)).

(** Modelled from the spec: [fs.writeJSON] of the same library.  The
    file [pth] is created, or overwritten, with the JSON text of [val];
    the directory it goes in must exist. *)
Definition fs_writeJSON (pth : string) (val : value) : IO unit :=
  fun w =>
    if decide (dirname pth ∈ dirs w)
    then (Ok tt, World (dirs w) (<[pth := JSON_stringify val]> (files w)) (trace w))
    else (Throw (ENOENT pth), w).

(** Modelled from the spec: [fs.readJson] of the same library.  It
    returns the value the text of file [pth] stands for, and fails when
    there is no such file or its text is no JSON. *)
Definition fs_readJson (pth : string) : IO value :=
  fun w =>
    match files w !! pth with
    | None => (Throw (ENOENT pth), w)
    | Some text =>
        match JSON_parse text with
        | Some data => (Ok data, w)
        | None => (Throw (SyntaxError pth), w)
        end
    end.

(** ** The helpers *)

(** [val] is [None] when the caller leaves the fallback out; the test
    [val == null] holds then, and when the fallback passed is [null]. *)
Definition readJson (pth : string) (val : option value) : IO value :=
  try_catch
    (data <- fs_readJson pth ;;
     log (UtilDebug ("data loaded from " +:+ pth) (Some data)) ;;
     ret data)
    (fun e =>
       log (ConsoleWarn (message e)) ;;
       if eq_null value_is_null val then throw (Error e)
       else ret (default JNull val)).

Definition writeJson (pth : string) (val : value) : IO unit :=
  fs_ensureDir (dirname pth) ;;
  fs_writeJSON pth val ;;
  log (UtilDebug ("saved to " +:+ pth) None).

(** [argsMap[key] = val] for a string [val], on the plain object
    [argsMap] that [jobTemplate] uses as a dictionary; the map holds the
    object's own properties.  The property is created or overwritten,
    except for the key [__proto__]: there the assignment runs the setter
    the object inherits from [Object.prototype], which ignores a value
    that is no object, and the object gets no property. *)
Definition set_property (argsMap : gmap string string) (key val : string)
  : gmap string string :=
  if String.eqb key "__proto__" then argsMap else <[key := val]> argsMap.

(** The body of the loop of [jobTemplate]: one entry of the argument
    string, split at its colons. *)
Definition add_pair (argsMap : gmap string string) (argsPair : string)
  : IO (gmap string string) :=
  let pairArray := split ":" argsPair in
  if negb (length pairArray =? 2)
  then log (ConsoleLog "Arguments input error") ;; ret argsMap
  else ret (set_property argsMap (nth 0 pairArray "") (nth 1 pairArray "")).

(** The first test is [args == null]. *)
Definition jobTemplate (file : string) (args : arg string) : IO string :=
  match args with
  | Undefined | Null => ret file
  | Given args =>
      log (NunjucksConfigure true) ;;
      argsMap <- for_of add_pair ∅ (split ";" args) ;;
      log (NunjucksRenderString file argsMap) ;;
      lift (renderString true file argsMap)
  end.

End Helpers.

End Utils.

(* ================================================================== *)
(** * Reference models of the libraries *)
(* ================================================================== *)

Module Reference.
Import JS Utils.

(** ** [path.dirname] on POSIX paths *)

Definition is_slash (c : ascii) : bool := Ascii.eqb c "/".

Fixpoint drop_while (p : ascii -> bool) (cs : list ascii) : list ascii :=
  match cs with
  | [] => []
  | c :: rest => if p c then drop_while p rest else cs
  end.

(** Trailing separators are skipped, then the last component; what is
    left, up to the separator before that component, is the directory. *)
Definition posix_dirname (path : string) : string :=
  match path with
  | EmptyString => "."
  | String c0 rest =>
      let hasRoot := is_slash c0 in
      let scanned :=
        drop_while (fun c => negb (is_slash c))
          (drop_while is_slash (rev (list_ascii_of_string rest))) in
      match scanned with
      | [] => if hasRoot then "/" else "."
      | _ :: before =>
          match before with
          | [] => if hasRoot then "//" else String c0 EmptyString
          | _ => String c0 (string_of_list_ascii (rev before))
          end
      end
  end.

(** ** JSON text *)

Definition dquote : ascii := "034".
Definition backslash : ascii := "092".

(** The characters below the space are control characters. *)
Definition is_control (c : ascii) : bool := nat_of_ascii c <? 32.

Definition hex_char (n : nat) : ascii :=
  match n with
  | 0 => "0" | 1 => "1" | 2 => "2" | 3 => "3" | 4 => "4"
  | 5 => "5" | 6 => "6" | 7 => "7" | 8 => "8" | 9 => "9"
  | 10 => "a" | 11 => "b" | 12 => "c" | 13 => "d" | 14 => "e"
  | _ => "f"
  end.

(** A character inside a JSON string: the quote and the backslash take a
    backslash, a control character is written with its letter or with
    its code. *)
Definition escape_char (c : ascii) : string :=
  if Ascii.eqb c dquote then String backslash (String dquote EmptyString)
  else if Ascii.eqb c backslash then String backslash (String backslash EmptyString)
  else if Ascii.eqb c "008" then String backslash "b"
  else if Ascii.eqb c "009" then String backslash "t"
  else if Ascii.eqb c "010" then String backslash "n"
  else if Ascii.eqb c "012" then String backslash "f"
  else if Ascii.eqb c "013" then String backslash "r"
  else if is_control c then
    String backslash
      (String "u" (String "0" (String "0"
         (String (hex_char (nat_of_ascii c / 16))
            (String (hex_char (nat_of_ascii c mod 16)) EmptyString)))))
  else String c EmptyString.

Fixpoint escape_json (s : string) : string :=
  match s with
  | EmptyString => EmptyString
  | String c rest => escape_char c +:+ escape_json rest
  end.

Definition quoted (s : string) : string :=
  String dquote (escape_json s +:+ String dquote EmptyString).

Fixpoint join (sep : string) (pieces : list string) : string :=
  match pieces with
  | [] => EmptyString
  | [piece] => piece
  | piece :: rest => piece +:+ sep +:+ join sep rest
  end.

Fixpoint stringify (v : value) : string :=
  match v with
  | JNull => "null"
  | JBool true => "true"
  | JBool false => "false"
  | JNum n => pretty n
  | JStr s => quoted s
  | JArr items => "[" +:+ join "," (List.map stringify items) +:+ "]"
  | JObj props =>
      "{" +:+ join "," (List.map (fun kv => quoted (fst kv) +:+ ":" +:+ stringify (snd kv)) props)
          +:+ "}"
  end.

Definition is_space (c : ascii) : bool :=
  Ascii.eqb c " " || Ascii.eqb c "010" || Ascii.eqb c "013" || Ascii.eqb c "009".

Fixpoint skip_ws (s : string) : string :=
  match s with
  | String c rest => if is_space c then skip_ws rest else s
  | EmptyString => s
  end.

Definition digit_of (c : ascii) : option Z :=
  let n := Z.of_nat (nat_of_ascii c) in
  if (48 <=? n)%Z && (n <=? 57)%Z then Some (n - 48)%Z else None.

(** The character a backslash and [c] stand for. *)
Definition unescape (c : ascii) : option ascii :=
  if Ascii.eqb c dquote then Some dquote
  else if Ascii.eqb c backslash then Some backslash
  else if Ascii.eqb c "/" then Some "/"%char
  else if Ascii.eqb c "b" then Some "008"%char
  else if Ascii.eqb c "t" then Some "009"%char
  else if Ascii.eqb c "n" then Some "010"%char
  else if Ascii.eqb c "f" then Some "012"%char
  else if Ascii.eqb c "r" then Some "013"%char
  else None.

Definition hex_digit_value (c : ascii) : option nat :=
  let n := nat_of_ascii c in
  if (48 <=? n) && (n <=? 57) then Some (n - 48)
  else if (97 <=? n) && (n <=? 102) then Some (n - 87)
  else if (65 <=? n) && (n <=? 70) then Some (n - 55)
  else None.

(** The character written with the four hexadecimal digits of its code;
    the model reads the codes of one byte, below 128. *)
Definition coded (h1 h2 h3 h4 : ascii) : option ascii :=
  match hex_digit_value h1, hex_digit_value h2, hex_digit_value h3, hex_digit_value h4 with
  | Some d1, Some d2, Some d3, Some d4 =>
      let n := ((d1 * 16 + d2) * 16 + d3) * 16 + d4 in
      if n <? 128 then Some (ascii_of_nat n) else None
  | _, _, _, _ => None
  end.

(** The text after an opening quote, up to the closing one; a control
    character cannot stand in it unescaped. *)
Fixpoint parse_chars (acc : string) (s : string) : option (string * string) :=
  match s with
  | EmptyString => None
  | String c rest =>
      if Ascii.eqb c dquote then Some (acc, rest)
      else if Ascii.eqb c backslash then
        match rest with
        | String c' rest' =>
            match unescape c' with
            | Some plain => parse_chars (acc +:+ String plain EmptyString) rest'
            | None =>
                if Ascii.eqb c' "u" then
                  match rest' with
                  | String h1 (String h2 (String h3 (String h4 rest''))) =>
                      match coded h1 h2 h3 h4 with
                      | Some plain => parse_chars (acc +:+ String plain EmptyString) rest''
                      | None => None
                      end
                  | _ => None
                  end
                else None
            end
        | EmptyString => None
        end
      else if is_control c then None
      else parse_chars (acc +:+ String c EmptyString) rest
  end.

Fixpoint parse_digits (acc : Z) (s : string) : Z * string :=
  match s with
  | String c rest =>
      match digit_of c with
      | Some d => parse_digits (10 * acc + d)%Z rest
      | None => (acc, s)
      end
  | EmptyString => (acc, s)
  end.

Definition parse_number (s : string) : option (Z * string) :=
  match s with
  | String c rest =>
      match digit_of c with
      | Some d => Some (parse_digits d rest)
      | None => None
      end
  | EmptyString => None
  end.

(** [keyword kw v s]: [s] starts with the literal [kw]. *)
Definition keyword (kw : string) (v : value) (s : string) : option (value * string) :=
  if String.prefix kw s
  then Some (v, String.substring (String.length kw) (String.length s - String.length kw) s)
  else None.

(** What follows the character [c] at the start of [s], if [s] starts
    with it. *)
Definition after (c : ascii) (s : string) : option string :=
  match s with
  | String c' rest => if Ascii.eqb c' c then Some rest else None
  | EmptyString => None
  end.

(** A recursive-descent reader; [fuel] bounds the number of values and
    separators read, and the length of the text is always enough. *)
Fixpoint parse_value (fuel : nat) (s : string) : option (value * string) :=
  match fuel with
  | O => None
  | S fuel' =>
      match skip_ws s with
      | EmptyString => None
      | String c rest =>
          if Ascii.eqb c dquote then
            '(str, r1) ← parse_chars EmptyString rest; Some (JStr str, r1)
          else if Ascii.eqb c "[" then
            match after "]" (skip_ws rest) with
            | Some r1 => Some (JArr [], r1)
            | None =>
                '(v, r1) ← parse_value fuel' rest;
                '(vs, r2) ← parse_items fuel' r1;
                Some (JArr (v :: vs), r2)
            end
          else if Ascii.eqb c "{" then
            match after "}" (skip_ws rest) with
            | Some r1 => Some (JObj [], r1)
            | None =>
                '(kv, r1) ← parse_member fuel' rest;
                '(kvs, r2) ← parse_members fuel' r1;
                Some (JObj (kv :: kvs), r2)
            end
          else if Ascii.eqb c "-" then
            '(n, r1) ← parse_number rest; Some (JNum (- n), r1)
          else if Ascii.eqb c "n" then keyword "null" JNull (String c rest)
          else if Ascii.eqb c "t" then keyword "true" (JBool true) (String c rest)
          else if Ascii.eqb c "f" then keyword "false" (JBool false) (String c rest)
          else '(n, r1) ← parse_number (String c rest); Some (JNum n, r1)
      end
  end
with parse_items (fuel : nat) (s : string) : option (list value * string) :=
  match fuel with
  | O => None
  | S fuel' =>
      match after "]" (skip_ws s) with
      | Some rest => Some ([], rest)
      | None =>
          match after "," (skip_ws s) with
          | Some rest =>
              '(v, r1) ← parse_value fuel' rest;
              '(vs, r2) ← parse_items fuel' r1;
              Some (v :: vs, r2)
          | None => None
          end
      end
  end
with parse_member (fuel : nat) (s : string) : option ((string * value) * string) :=
  match fuel with
  | O => None
  | S fuel' =>
      match after dquote (skip_ws s) with
      | Some rest =>
          '(k, r1) ← parse_chars EmptyString rest;
          match after ":" (skip_ws r1) with
          | Some r2 => '(v, r3) ← parse_value fuel' r2; Some ((k, v), r3)
          | None => None
          end
      | None => None
      end
  end
with parse_members (fuel : nat) (s : string) : option (list (string * value) * string) :=
  match fuel with
  | O => None
  | S fuel' =>
      match after "}" (skip_ws s) with
      | Some rest => Some ([], rest)
      | None =>
          match after "," (skip_ws s) with
          | Some rest =>
              '(kv, r1) ← parse_member fuel' rest;
              '(kvs, r2) ← parse_members fuel' r1;
              Some (kv :: kvs, r2)
          | None => None
          end
      end
  end.

Definition parse (text : string) : option value :=
  '(v, rest) ← parse_value (S (String.length text)) text;
  match skip_ws rest with
  | EmptyString => Some v
  | _ => None
  end.

(** The text [fs.writeJSON] writes for a value: its JSON text on one
    line, and the end of the line. *)
Definition file_text (v : value) : string :=
  stringify v +:+ String "010" EmptyString.

(** ** The template engine *)

(** Auto-escaping: the characters with a meaning in HTML, and the
    backslash, are replaced by their entities. *)
Fixpoint html_escape (s : string) : string :=
  match s with
  | EmptyString => EmptyString
  | String c rest =>
      (if Ascii.eqb c "&" then "&amp;"
       else if Ascii.eqb c "<" then "&lt;"
       else if Ascii.eqb c ">" then "&gt;"
       else if Ascii.eqb c dquote then "&quot;"
       else if Ascii.eqb c "'" then "&#39;"
       else if Ascii.eqb c backslash then "&#92;"
       else String c EmptyString) +:+ html_escape rest
  end.

(** The blanks around what a placeholder holds do not count. *)
Definition trim (s : string) : string :=
  string_of_list_ascii
    (rev (drop_while is_space (rev (drop_while is_space (list_ascii_of_string s))))).

Definition is_letter (c : ascii) : bool :=
  let n := nat_of_ascii c in
  (65 <=? n) && (n <=? 90) || (97 <=? n) && (n <=? 122).

Definition is_digit (c : ascii) : bool :=
  let n := nat_of_ascii c in (48 <=? n) && (n <=? 57).

Definition name_char (c : ascii) : bool :=
  is_letter c || is_digit c || Ascii.eqb c "_".

Fixpoint all_chars (p : ascii -> bool) (s : string) : bool :=
  match s with
  | EmptyString => true
  | String c rest => p c && all_chars p rest
  end.

Definition among (names : list string) (s : string) : bool :=
  existsb (String.eqb s) names.

(** The words of the engine's expressions. *)
Definition keywords : list string :=
  ["true"; "false"; "none"; "null"; "not"; "and"; "or"; "in"; "is"; "if"; "else"].

(** The names that have a value in every context: what every object
    inherits, and the functions the engine defines. *)
Definition ambient : list string :=
  ["__proto__"; "constructor"; "hasOwnProperty"; "isPrototypeOf";
   "propertyIsEnumerable"; "toLocaleString"; "toString"; "valueOf";
   "__defineGetter__"; "__defineSetter__"; "__lookupGetter__"; "__lookupSetter__";
   "range"; "cycler"; "joiner"].

(** A name: letters, digits and underscores, no digit first, and none of
    the words of the expressions. *)
Definition is_name (s : string) : bool :=
  match s with
  | EmptyString => false
  | String c _ => negb (is_digit c) && all_chars name_char s && negb (among keywords s)
  end.

(** What a placeholder holding the name [key] is replaced by: the value
    the context maps the key to, escaped when [autoescape] is on, and
    nothing when the context has no such key. *)
Definition substitute (autoescape : bool) (context : gmap string string) (key : string)
  : string :=
  match context !! key with
  | Some v => if autoescape then html_escape v else v
  | None => EmptyString
  end.

(** What stands between the braces of a placeholder.  The model follows
    the engine for a name that is not ambient; other expressions
    (filters, literals, operators, ambient names) are beyond it. *)
Definition evaluate (autoescape : bool) (context : gmap string string)
    (expression : string) : outcome string :=
  let key := trim expression in
  if is_name key && negb (among ambient key)
  then Ok (substitute autoescape context key)
  else Throw Unmodelled.

Definition prepend (s : string) (result : outcome string) : outcome string :=
  match result with
  | Ok t => Ok (s +:+ t)
  | Throw e => Throw e
  end.

(** Modelled from the spec: the template engine (the library behind
    [env.renderString]) is not part of the sources.  The model covers
    what the specification says of it, the substitution of each
    placeholder, written as the key between two opening and two closing
    braces, by the value mapped to its key, with auto-escaping; and the
    failures of the engine on such templates: a placeholder that is
    never closed, and the end of a comment where no comment is open, are
    rejected.  Block tags and comments are beyond the model.  [inside]
    is [None] outside a placeholder and holds the characters read so far
    inside one. *)
Fixpoint render_from (autoescape : bool) (context : gmap string string)
    (inside : option string) (s : string) : outcome string :=
  match s with
  | EmptyString =>
      match inside with
      | None => Ok EmptyString
      | Some _ => Throw TemplateError
      end
  | String c rest =>
      match inside with
      | None =>
          if Ascii.eqb c "{" then
            match rest with
            | String c' rest' =>
                if Ascii.eqb c' "{"
                then render_from autoescape context (Some EmptyString) rest'
                else if Ascii.eqb c' "%" || Ascii.eqb c' "#"
                then Throw Unmodelled
                else prepend (String c EmptyString)
                       (render_from autoescape context None rest)
            | EmptyString => Ok (String c EmptyString)
            end
          else if Ascii.eqb c "#" then
            match rest with
            | String c' _ =>
                if Ascii.eqb c' "}"
                then Throw TemplateError
                else prepend (String c EmptyString)
                       (render_from autoescape context None rest)
            | EmptyString => Ok (String c EmptyString)
            end
          else prepend (String c EmptyString) (render_from autoescape context None rest)
      | Some read =>
          if Ascii.eqb c "}" then
            match rest with
            | String c' rest' =>
                if Ascii.eqb c' "}"
                then match evaluate autoescape context read with
                     | Ok v => prepend v (render_from autoescape context None rest')
                     | Throw e => Throw e
                     end
                else render_from autoescape context
                       (Some (read +:+ String c EmptyString)) rest
            | EmptyString => Throw TemplateError
            end
          else render_from autoescape context (Some (read +:+ String c EmptyString)) rest
      end
  end.

Definition render (autoescape : bool) (template : string) (context : gmap string string)
  : outcome string :=
  render_from autoescape context None template.

(** The message of an error, as the platform words it. *)
Fixpoint error_message (e : error) : string :=
  match e with
  | ENOENT pth => "ENOENT: no such file or directory, open '" +:+ pth +:+ "'"
  | SyntaxError pth => pth +:+ ": Unexpected token in JSON"
  | Error cause => "Error: " +:+ error_message cause
  | TemplateError => "Template render error"
  | Unmodelled => EmptyString
  end.

#[export] Instance node : Platform := {|
  dirname := posix_dirname;
  JSON_stringify := file_text;
  JSON_parse := parse;
  message := error_message;
  renderString := render
|}.

End Reference.

(* ================================================================== *)
(** * [tests/common/apiTestCases.ts] *)
(* ================================================================== *)

Module ApiTestCases.
Import JS.

(** ** Module state: the random-string singleton and [crypto] *)

(** [data] is the private field of the one [RandomString] instance,
    [None] while it is [undefined].  The bytes [crypto.randomBytes] hands
    out are those of an unknown sequence [entropy], read from position
    [drawn] on. *)
Record heap : Type := Heap {
  data : option string;
  entropy : nat -> byte;
  drawn : nat
}.

Definition Run (A : Type) : Type := heap -> A * heap.

Definition ret {A} (a : A) : Run A := fun h => (a, h).

Definition bind {A B} (c : Run A) (k : A -> Run B) : Run B :=
  fun h => let (a, h') := c h in k a h'.

Declare Scope run_scope.
Delimit Scope run_scope with run.
Notation "x <- c ;; k" := (bind c (fun x => k))
  (at level 100, c at next level, right associativity) : run_scope.
Open Scope run_scope.

(** [crypto.randomBytes(n)]. *)
Definition randomBytes (n : nat) : Run (list byte) :=
  fun h => (List.map (entropy h) (seq (drawn h) n), Heap (data h) (entropy h) (n + drawn h)).

Definition hex_digit (d : N) : ascii :=
  match d with
  | 0%N => "0" | 1%N => "1" | 2%N => "2" | 3%N => "3"
  | 4%N => "4" | 5%N => "5" | 6%N => "6" | 7%N => "7"
  | 8%N => "8" | 9%N => "9" | 10%N => "a" | 11%N => "b"
  | 12%N => "c" | 13%N => "d" | 14%N => "e" | _ => "f"
  end.

(** [buffer.toString('hex')]: two lower-case digits per byte. *)
Fixpoint toString_hex (buffer : list byte) : string :=
  match buffer with
  | [] => EmptyString
  | b :: rest =>
      String (hex_digit (Byte.to_N b / 16)) (String (hex_digit (Byte.to_N b mod 16))
        (toString_hex rest))
  end.

(** The methods of [RandomString], on the instance [randomString]. *)
Definition new : Run string :=
  fun h =>
    let (buffer, h') := randomBytes 4 h in
    let s := toString_hex buffer in
    (s, Heap (Some s) (entropy h') (drawn h')).

Definition get : Run string :=
  fun h =>
    if truthy (data h)
    then (default EmptyString (data h), h)
    else new h.

(** ** The operations shared by the table *)

(** The two shapes of a parameter specification. *)
Definition raw (v : value) : value :=
  JObj [("type", JStr "raw"); ("value", v)].

Definition fromResult (resultType : string) (resultPath : list value) (resultIndex : Z)
  : value :=
  JObj [("type", JStr "fromResult"); ("resultType", JStr resultType);
        ("resultPath", JArr resultPath); ("resultIndex", JNum resultIndex)].

Definition createTestUser : value :=
  JObj [("tag", JStr "user"); ("operationId", JStr "createUser");
        ("parameters", JArr [
           raw (JObj [("username", JStr "sdk_test_user");
                      ("password", JStr "test_password")])])].

Definition deleteTestUser : value :=
  JObj [("tag", JStr "user"); ("operationId", JStr "deleteUser");
        ("parameters", JArr [raw (JStr "sdk_test_user")])].

Definition createTestGroup : value :=
  JObj [("tag", JStr "group"); ("operationId", JStr "createGroup");
        ("parameters", JArr [raw (JObj [("groupname", JStr "sdktestgroup")])])].

Definition deleteTestGroup : value :=
  JObj [("tag", JStr "group"); ("operationId", JStr "deleteGroup");
        ("parameters", JArr [raw (JStr "sdktestgroup")])].

(** The first element of the fixture [clusters.json]. *)
Record ClusterDescriptor : Type := {
  username : string;
  password : string;
  rest_server_uri : string;
  token : string
}.

Section Table.

(** [clustersJson[0]] and [testJobConfig] come from files outside the
    sources; the table is built over any content of theirs. *)
Variable clustersJson_0 : ClusterDescriptor.
Variable testJobConfig : value.

Definition createTestJob : Run value :=
  suffix <- new ;;
  ret (JObj [("tag", JStr "job"); ("operationId", JStr "createJob");
             ("parameters", JArr [
                raw (spread_obj testJobConfig
                       (JObj [("name", JStr ("sdk_test_job" +:+ suffix))]))])]).

Definition updateTestJobExecutionType (executionType : string) : Run value :=
  suffix <- get ;;
  ret (JObj [("tag", JStr "job"); ("operationId", JStr "updateJobExecutionType");
             ("parameters", JArr [
                raw (JStr (username clustersJson_0));
                raw (JStr ("sdk_test_job" +:+ suffix));
                raw (JStr executionType)])]).

(** The entries of the table that call no function, in the order of the
    source. *)
Definition static_entries : list (string * value) :=
  [ ("get /api/v2/tokens", JObj [
       ("before", JArr [
          JObj [("tag", JStr "token"); ("operationId", JStr "createApplicationToken")]]);
       ("tests", JArr [
          JObj [("description", JStr "Get tokens with user token")];
          JObj [("description", JStr "Get tokens with unauthorized token");
                ("customizedTest", JStr "getTokensWithUnauthorizedUser")]]);
       ("after", JArr [
          JObj [("tag", JStr "token"); ("operationId", JStr "deleteToken");
                ("parameters", JArr [fromResult "beforeResults" [JStr "token"] 0])]])]);
    ("delete /api/v2/tokens/{token}", JObj [
       ("before", JArr [
          JObj [("tag", JStr "token"); ("operationId", JStr "createApplicationToken")]]);
       ("tests", JArr [
          JObj [("operation", JObj [
             ("parameters", JArr [fromResult "beforeResults" [JStr "token"] 0])])]])]);
    ("post /api/v2/tokens/application", JObj [
       ("tests", JArr [JObj []]);
       ("after", JArr [
          JObj [("tag", JStr "token"); ("operationId", JStr "deleteToken");
                ("parameters", JArr [fromResult "testResults" [JStr "token"] 0])]])]);
    ("post /api/v2/authn/basic/login", JObj [
       ("tests", JArr [
          JObj [("description", JStr "login with correct username and password");
                ("operation", JObj [
                   ("parameters", JArr [
                      raw (JStr (username clustersJson_0));
                      raw (JStr (password clustersJson_0))])])];
          JObj [("description", JStr "login with non-existent username");
                ("operation", JObj [
                   ("parameters", JArr [
                      raw (JStr "nonexistentuser");
                      raw (JStr "password")]);
                   ("response", JObj [
                      ("statusCode", JNum 400);
                      ("expectResult", JObj [
                         ("code", JStr "NoUserError");
                         ("message", JStr "User nonexistentuser is not found.")])])])];
          JObj [("description", JStr "login with incorrect password");
                ("operation", JObj [
                   ("parameters", JArr [
                      raw (JStr (username clustersJson_0));
                      raw (JStr "incorrectpassword")]);
                   ("response", JObj [
                      ("statusCode", JNum 400);
                      ("expectResult", JObj [
                         ("code", JStr "IncorrectPasswordError");
                         ("message", JStr "Password is incorrect.")])])])]]);
       ("after", JArr [
          JObj [("tag", JStr "token"); ("operationId", JStr "deleteToken");
                ("parameters", JArr [fromResult "testResults" [JStr "token"] 0])]])]);
    ("delete /api/v2/authn/basic/logout", JObj [
       ("before", JArr [
          JObj [("tag", JStr "authn"); ("operationId", JStr "basicLogin");
                ("parameters", JArr [
                   raw (JStr (username clustersJson_0));
                   raw (JStr (password clustersJson_0))])]]);
       ("tests", JArr [
          JObj [("description", JStr "Logout with correct token");
                ("customizedTest", JStr "logoutWithCorrectToken")];
          JObj [("description", JStr "Logout with incorrect token");
                ("customizedTest", JStr "logoutWithIncorrectToken")]])]);
    ("post /api/v2/users", JObj [
       ("before", JArr [
          JObj [("tag", JStr "token"); ("operationId", JStr "createApplicationToken")]]);
       ("tests", JArr [
          JObj [("description", JStr "Create a user");
                ("operation", createTestUser)];
          JObj [("description", JStr "Create a conflict user");
                ("operation",
                 spread_obj createTestUser
                   (JObj [("response", JObj [("statusCode", JNum 409)])]))];
          JObj [("description", JStr "Create a user by application token");
                ("customizedTest", JStr "createUserByApplicationToken")];
          JObj [("description", JStr "Create a user by non-admin user token");
                ("customizedTest", JStr "createUserByNonadminToken")]]);
       ("after", JArr [
          deleteTestUser;
          JObj [("tag", JStr "token"); ("operationId", JStr "deleteToken");
                ("parameters", JArr [fromResult "beforeResults" [JStr "token"] 0])]])]);
    ("put /api/v2/users", JObj [
       ("before", JArr [createTestUser]);
       ("tests", JArr [
          JObj [("description", JStr "patch: true");
                ("operation", JObj [
                   ("parameters", JArr [
                      raw (JObj [("username", JStr "sdk_test_user");
                                 ("email", JStr "new_email@test1.com")])])])];
          JObj [("description", JStr "patch: false");
                ("operation", JObj [
                   ("parameters", JArr [
                      raw (JObj [("username", JStr "sdk_test_user");
                                 ("email", JStr "new_email@test2.com");
                                 ("virtualCluster", JArr [JStr "default"]);
                                 ("admin", JBool false);
                                 ("password", JStr "new_test_password");
                                 ("extension", JObj [])]);
                      raw (JBool false)])])]]);
       ("after", JArr [deleteTestUser])]);
    ("put /api/v2/users/me", JObj [
       ("tests", JArr [
          JObj [("description", JStr "patch: true");
                ("operation", JObj [
                   ("parameters", JArr [
                      raw (JObj [("username", JStr (username clustersJson_0));
                                 ("email", JStr "new_email@test1.com")])])])];
          JObj [("description", JStr "patch: false");
                ("operation", JObj [
                   ("parameters", JArr [
                      raw (JObj [("username", JStr (username clustersJson_0));
                                 ("email", JStr "new_email@test2.com");
                                 ("oldPassword", JStr (password clustersJson_0));
                                 ("newPassword", JStr (password clustersJson_0))]);
                      raw (JBool false)])])]])]);
    ("get /api/v2/users/{user}", JObj [
       ("tests", JArr [
          JObj [("operation", JObj [
             ("parameters", JArr [raw (JStr (username clustersJson_0))])])]])]);
    ("delete /api/v2/users/{user}", JObj [
       ("before", JArr [createTestUser]);
       ("tests", JArr [JObj [("operation", deleteTestUser)]])]);
    ("post /api/v2/groups", JObj [
       ("tests", JArr [JObj [("operation", createTestGroup)]]);
       ("after", JArr [deleteTestGroup])]);
    ("put /api/v2/groups", JObj [
       ("before", JArr [createTestGroup]);
       ("tests", JArr [
          JObj [("operation", JObj [
             ("parameters", JArr [
                raw (JObj [("data", JObj [("groupname", JStr "sdktestgroup");
                                          ("description", JStr "test update group")]);
                           ("patch", JBool true)])])])]]);
       ("after", JArr [deleteTestGroup])]);
    ("get /api/v2/groups/{group}", JObj [
       ("before", JArr [createTestGroup]);
       ("tests", JArr [
          JObj [("operation", JObj [
             ("parameters", JArr [raw (JStr "sdktestgroup")])])]]);
       ("after", JArr [deleteTestGroup])]);
    ("delete /api/v2/groups/{group}", JObj [
       ("before", JArr [createTestGroup]);
       ("tests", JArr [JObj [("operation", deleteTestGroup)]])]);
    ("get /api/v2/virtual-clusters/{vc}", JObj [
       ("tests", JArr [
          JObj [("operation", JObj [
             ("parameters", JArr [raw (JStr "default")])])]])]);
    ("get /api/v2/virtual-clusters/{vc}/sku-types", JObj [
       ("tests", JArr [
          JObj [("operation", JObj [
             ("parameters", JArr [raw (JStr "default")])])]])]);
    ("get /api/v2/storages/{storage}", JObj [
       ("before", JArr [
          JObj [("tag", JStr "storage"); ("operationId", JStr "getStorages")]]);
       ("tests", JArr [
          JObj [("operation", JObj [
             ("parameters", JArr [
                fromResult "beforeResults" [JStr "storages"; JNum 0; JStr "name"] 0])])]])]) ].

(** The entries about jobs.  The calls they make run in the order they
    are written, entry by entry: [before], then [tests], then [after]. *)
Definition job_entries : Run (list (string * value)) :=
  create1 <- createTestJob ;;
  stop1 <- updateTestJobExecutionType "STOP" ;;
  create2 <- createTestJob ;;
  suffix2 <- get ;;
  stop2 <- updateTestJobExecutionType "STOP" ;;
  create3 <- createTestJob ;;
  suffix3 <- get ;;
  stop3 <- updateTestJobExecutionType "STOP" ;;
  create4 <- createTestJob ;;
  test4a <- updateTestJobExecutionType "STOP" ;;
  test4b <- updateTestJobExecutionType "START" ;;
  stop4 <- updateTestJobExecutionType "STOP" ;;
  create5 <- createTestJob ;;
  suffix5 <- get ;;
  stop5 <- updateTestJobExecutionType "STOP" ;;
  create6 <- createTestJob ;;
  suffix6 <- get ;;
  stop6 <- updateTestJobExecutionType "STOP" ;;
  ret [ ("post /api/v2/jobs", JObj [
           ("tests", JArr [JObj [("operation", create1)]]);
           ("after", JArr [stop1])]);
        ("get /api/v2/jobs/{user}~{job}", JObj [
           ("before", JArr [create2]);
           ("tests", JArr [
              JObj [("operation", JObj [
                 ("parameters", JArr [
                    raw (JStr (username clustersJson_0));
                    raw (JStr ("sdk_test_job" +:+ suffix2))])])]]);
           ("after", JArr [stop2])]);
        ("get /api/v2/jobs/{user}~{job}/config", JObj [
           ("before", JArr [create3]);
           ("tests", JArr [
              JObj [("operation", JObj [
                 ("parameters", JArr [
                    raw (JStr (username clustersJson_0));
                    raw (JStr ("sdk_test_job" +:+ suffix3))])])]]);
           ("after", JArr [stop3])]);
        ("put /api/v2/jobs/{user}~{job}/exectionType", JObj [
           ("before", JArr [create4]);
           ("tests", JArr [
              JObj [("description", JStr "update job execution type to STOP");
                    ("operation", test4a)];
              JObj [("description", JStr "update job execution type to START");
                    ("operation", test4b)]]);
           ("after", JArr [stop4])]);
        ("get /api/v2/jobs/{user}~{job}/job-attempts", JObj [
           ("before", JArr [create5]);
           ("tests", JArr [
              JObj [("operation", JObj [
                 ("parameters", JArr [
                    raw (JStr (username clustersJson_0));
                    raw (JStr ("sdk_test_job" +:+ suffix5))])])]]);
           ("after", JArr [stop5])]);
        ("get /api/v2/jobs/{user}~{job}/job-attempts/{attemptIndex}", JObj [
           ("before", JArr [create6]);
           ("tests", JArr [
              JObj [("operation", JObj [
                 ("parameters", JArr [
                    raw (JStr (username clustersJson_0));
                    raw (JStr ("sdk_test_job" +:+ suffix6));
                    raw (JNum 0)])])]]);
           ("after", JArr [stop6])]) ].

Definition ApiDefaultTestCases : Run value :=
  jobs <- job_entries ;;
  ret (JObj (static_entries ++ jobs)).

End Table.

(** The heap when the module starts to load: [randomString] has just been
    constructed, its [data] still [undefined]. *)
Definition fresh (entropy : nat -> byte) (drawn : nat) : heap :=
  Heap None entropy drawn.

End ApiTestCases.

(* ================================================================== *)
(** * [tests/common/apiTestCases.ts]: the customized tests *)
(* ================================================================== *)

Module CustomizedTests.
Import JS ApiTestCases.

(** ** What the hooks talk to *)

(** The options a REST client is constructed with.  A token read from a
    result may be [undefined] ([None]). *)
Record config : Type := Config {
  config_token : option value;
  https : bool;
  config_rest_server_uri : string
}.

(** An error thrown by a client, as far as the hooks look at it: whether
    it is an instance of the two error classes they name, its [message]
    and its [data]; [None] stands for [undefined]. *)
Record client_error : Type := {
  instanceof_UnauthorizedUserError : bool;
  instanceof_ForbiddenUserError : bool;
  message : option value;
  data : option value
}.

(** What a hook may throw: a [TypeError] for reading a property of
    [undefined] or [null], the [AssertionError] of a failed expectation,
    or the error of a client. *)
Inductive thrown : Type :=
| TypeError
| AssertionError
| Remote (e : client_error).

Inductive outcome (A : Type) : Type :=
| Returned (a : A)
| Threw (t : thrown).
Arguments Returned {A} a.
Arguments Threw {A} t.

(** The clients and the service behind them are not part of the sources:
    a call is any function from the state of the service to the value
    returned or the error thrown, and the next state. *)
Class Service : Type := {
  server : Type;
  token_getTokens : config -> server -> (value + client_error) * server;
  authn_basicLogin : config -> string -> string -> server -> (value + client_error) * server;
  authn_basicLogout : config -> server -> (value + client_error) * server;
  user_createUser : config -> value -> server -> (value + client_error) * server
}.

(** A teardown registered with [after]: the deletion of a user through a
    client. *)
Inductive teardown : Type :=
| DeleteUser (client : config) (username : string).

(** The results of the operations that ran before a hook. *)
Record IOperationResults : Type := {
  beforeResults : option (list value);
  testResults : option (list value)
}.

Section Hooks.
Context `{service : Service}.

Record state : Type := State {
  remote : server;
  teardowns : list teardown
}.

Definition Test (A : Type) : Type := state -> outcome A * state.

Definition ret {A} (a : A) : Test A := fun st => (Returned a, st).

Definition throw {A} (t : thrown) : Test A := fun st => (Threw t, st).

Definition bind {A B} (c : Test A) (k : A -> Test B) : Test B :=
  fun st =>
    match c st with
    | (Returned a, st') => k a st'
    | (Threw t, st') => (Threw t, st')
    end.

Definition try_catch {A} (c : Test A) (handler : thrown -> Test A) : Test A :=
  fun st =>
    match c st with
    | (Returned a, st') => (Returned a, st')
    | (Threw t, st') => handler t st'
    end.

(** [await call]: the call runs on the service; its error is thrown. *)
Definition await (call : server -> (value + client_error) * server) : Test value :=
  fun st =>
    match call (remote st) with
    | (inl v, remote') => (Returned v, State remote' (teardowns st))
    | (inr e, remote') => (Threw (Remote e), State remote' (teardowns st))
    end.

(** [after(...)]. *)
Definition after (t : teardown) : Test unit :=
  fun st => (Returned tt, State (remote st) (teardowns st ++ [t])).

Declare Scope test_scope.
Delimit Scope test_scope with test.
Notation "x <- c ;; k" := (bind c (fun x => k))
  (at level 100, c at next level, right associativity) : test_scope.
Notation "c ;; k" := (bind c (fun _ => k))
  (at level 100, right associativity) : test_scope.
Open Scope test_scope.

(** ** Property reads and expectations *)

(** [o.k] for an [o] that may be [undefined] or [null]: reading a
    property of either throws. *)
Definition property (k : string) (o : option value) : Test (option value) :=
  match o with
  | None | Some JNull => throw TypeError
  | Some v => ret (field k v)
  end.

(** [operationResults!.beforeResults![0].token]. *)
Definition before_token (operationResults : option IOperationResults)
  : Test (option value) :=
  match operationResults with
  | None => throw TypeError
  | Some results =>
      match beforeResults results with
      | None => throw TypeError
      | Some before => property "token" (head before)
      end
  end.

(** What a caught error shows.  An error made by the hook itself is of
    neither class and has no [data]. *)
Definition instanceof (cls : client_error -> bool) (err : thrown) : bool :=
  match err with
  | Remote e => cls e
  | TypeError | AssertionError => false
  end.

Definition message_of (err : thrown) : option value :=
  match err with
  | Remote e => message e
  | TypeError | AssertionError => None
  end.

Definition data_of (err : thrown) : option value :=
  match err with
  | Remote e => data e
  | TypeError | AssertionError => None
  end.

(** [v === s] for a string [s]. *)
Definition strictly_equals (s : string) (v : option value) : bool :=
  match v with
  | Some (JStr t) => String.eqb t s
  | _ => false
  end.

(** [expect(v).to.be.eq(s)] and [expect(v).to.be.equal(s)]. *)
Definition expect_equal (v : option value) (s : string) : Test unit :=
  if strictly_equals s v then ret tt else throw AssertionError.

(** [expect(err).to.be.an.instanceof(cls)]. *)
Definition expect_instanceof (err : thrown) (cls : client_error -> bool) : Test unit :=
  if instanceof cls err then ret tt else throw AssertionError.

(** [expect(v).to.throw(cls)] for a [v] that is a value and no function:
    the expectation first requires a function to call, and fails. *)
Definition expect_to_throw (v : value) (cls : client_error -> bool) : Test unit :=
  throw AssertionError.

(** ** The hooks of [CustomizedTestsClass] *)

Variable clustersJson_0 : ClusterDescriptor.

Definition getTokensWithUnauthorizedUser
    (test : value) (operationResults : option IOperationResults) : Test unit :=
  let client :=
    Config (Some (JStr "unauthorized user token")) true (rest_server_uri clustersJson_0) in
  try_catch
    (await (token_getTokens client) ;; ret tt)
    (fun err => expect_instanceof err instanceof_UnauthorizedUserError).

Definition logoutWithCorrectToken
    (test : value) (operationResults : option IOperationResults) : Test unit :=
  token <- before_token operationResults ;;
  let client := Config token true (rest_server_uri clustersJson_0) in
  res <- await (authn_basicLogout client) ;;
  expect_equal (Some res) "Logout successfully".

Definition logoutWithIncorrectToken
    (test : value) (operationResults : option IOperationResults) : Test unit :=
  let client :=
    Config (Some (JStr "unauthorized user token")) true (rest_server_uri clustersJson_0) in
  res <- await (authn_basicLogout client) ;;
  expect_to_throw res instanceof_UnauthorizedUserError.

Definition createUserByNonadminToken
    (test : value) (operationResults : option IOperationResults) : Test unit :=
  let openPAIClient :=
    Config (Some (JStr (token clustersJson_0))) true (rest_server_uri clustersJson_0) in
  try_catch
    (await (user_createUser openPAIClient
              (JObj [("admin", JBool false); ("username", JStr "nonadminTestUser");
                     ("password", JStr "nonadminTestUser")])) ;;
     ret tt)
    (fun err =>
       code <- property "code" (data_of err) ;;
       if negb (strictly_equals "ConflictUserError" code) then throw err else ret tt) ;;
  info <- await (authn_basicLogin openPAIClient "nonadminTestUser" "nonadminTestUser") ;;
  info_token <- property "token" (Some info) ;;
  let client := Config info_token true (rest_server_uri clustersJson_0) in
  try_catch
    (await (user_createUser client
              (JObj [("username", JStr "sdk_test_user");
                     ("password", JStr "test_password")])) ;;
     ret tt)
    (fun err =>
       expect_equal (message_of err) "Non-admin is not allow to do this operation." ;;
       expect_instanceof err instanceof_ForbiddenUserError) ;;
  after (DeleteUser openPAIClient "nonadminTestUser").

Definition createUserByApplicationToken
    (test : value) (operationResults : option IOperationResults) : Test unit :=
  token <- before_token operationResults ;;
  let client := Config token true (rest_server_uri clustersJson_0) in
  try_catch
    (await (user_createUser client
              (JObj [("username", JStr "sdk_test_user");
                     ("password", JStr "test_password")])) ;;
     ret tt)
    (fun err =>
       expect_equal (message_of err) "Applications are not allowed to do this operation." ;;
       expect_instanceof err instanceof_ForbiddenUserError).

(** The instance [CustomizedTests]: its methods by name, in the order of
    the class. *)
Definition CustomizedTests
  : list (string * (value -> option IOperationResults -> Test unit)) :=
  [ ("getTokensWithUnauthorizedUser", getTokensWithUnauthorizedUser);
    ("logoutWithCorrectToken", logoutWithCorrectToken);
    ("logoutWithIncorrectToken", logoutWithIncorrectToken);
    ("createUserByNonadminToken", createUserByNonadminToken);
    ("createUserByApplicationToken", createUserByApplicationToken) ].

End Hooks.

End CustomizedTests.

(* ================================================================== *)
(** * The vocabulary of the statements *)
(* ================================================================== *)

Module UtilsSpec.
Import JS Utils.

(** ** Argument strings and templates *)

(** The text of an entry before its first colon, and after it. *)
Fixpoint before_colon (entry : string) : string :=
  match entry with
  | EmptyString => EmptyString
  | String c rest => if Ascii.eqb c ":" then EmptyString else String c (before_colon rest)
  end.

Fixpoint after_colon (entry : string) : string :=
  match entry with
  | EmptyString => EmptyString
  | String c rest => if Ascii.eqb c ":" then rest else after_colon rest
  end.

(** An entry is malformed when it does not split at its colons into
    exactly two parts. *)
Definition malformed (entry : string) : bool :=
  negb (length (split ":" entry) =? 2).

Definition well_formed (entry : string) : bool :=
  length (split ":" entry) =? 2.

(** The value a list of [key:value] entries gives a key: that of the last
    entry with this key. *)
Fixpoint mapped (entries : list string) (key : string) : option string :=
  match entries with
  | [] => None
  | entry :: rest =>
      match mapped rest key with
      | Some v => Some v
      | None => if String.eqb (before_colon entry) key then Some (after_colon entry) else None
      end
  end.

(** An entry holds exactly one colon. *)
Definition one_colon (entry : string) : bool := occurrences ":" entry =? 1.

(** An entry binds its key when it holds exactly one colon and its key
    is not [__proto__]. *)
Definition binds (entry : string) : bool :=
  one_colon entry && negb (String.eqb (before_colon entry) "__proto__").

(** The escaped form of a value: the five characters with a meaning in
    HTML are replaced by their entities. *)
Definition entity (c : ascii) : string :=
  if Ascii.eqb c "&" then "&amp;"
  else if Ascii.eqb c "<" then "&lt;"
  else if Ascii.eqb c ">" then "&gt;"
  else if Ascii.eqb c "034" then "&quot;"
  else if Ascii.eqb c "039" then "&#39;"
  else String c EmptyString.

Fixpoint escaped (v : string) : string :=
  match v with
  | EmptyString => EmptyString
  | String c rest => entity c +:+ escaped rest
  end.

(** An argument of a template: an entry without a semicolon that binds
    its key to a value without a backslash (the engine replaces other
    characters than the five above in some of its releases, the
    backslash among them). *)
Definition argument (entry : string) : bool :=
  (occurrences ";" entry =? 0) && binds entry
  && (occurrences "092" (after_colon entry) =? 0).

(** A template as its author sees it: stretches of text and
    placeholders, the key written right between the braces or with a
    blank on either side. *)
Inductive segment : Type :=
| Text (s : string)
| Placeholder (key : string)
| Spaced (key : string).

(** [s] holds [a] followed at once by [b]. *)
Fixpoint has_pair (a b : ascii) (s : string) : bool :=
  match s with
  | EmptyString => false
  | String c rest =>
      match rest with
      | EmptyString => false
      | String c' _ => (Ascii.eqb c a && Ascii.eqb c' b) || has_pair a b rest
      end
  end.

Fixpoint last_char (s : string) : option ascii :=
  match s with
  | EmptyString => None
  | String c rest =>
      match rest with
      | EmptyString => Some c
      | String _ _ => last_char rest
      end
  end.

(** A stretch of text opens no placeholder, tag or comment and closes no
    comment, and its last character does not start one with what
    follows. *)
Definition quiet (s : string) : bool :=
  negb (has_pair "{" "{" s) && negb (has_pair "{" "%" s)
  && negb (has_pair "{" "#" s) && negb (has_pair "#" "}" s)
  && match last_char s with
     | Some c => negb (Ascii.eqb c "{") && negb (Ascii.eqb c "#")
     | None => true
     end.

Definition letters : string := "abcdefghijklmnopqrstuvwxyzABCDEFGHIJKLMNOPQRSTUVWXYZ_".

Definition letters_and_digits : string := letters +:+ "0123456789".

Fixpoint made_of (alphabet : string) (s : string) : bool :=
  match s with
  | EmptyString => true
  | String c rest => (0 <? occurrences c alphabet) && made_of alphabet rest
  end.

(** The names a template cannot use for a key: the words of the engine's
    expressions, the names every object inherits and the functions of
    the engine. *)
Definition taken : list string :=
  ["true"; "false"; "none"; "null"; "not"; "and"; "or"; "in"; "is"; "if"; "else";
   "constructor"; "toString"; "toLocaleString"; "valueOf"; "hasOwnProperty";
   "isPrototypeOf"; "propertyIsEnumerable"; "__proto__"; "__defineGetter__";
   "__defineSetter__"; "__lookupGetter__"; "__lookupSetter__";
   "range"; "cycler"; "joiner"].

(** The key of a placeholder: a letter or an underscore, then letters,
    digits and underscores, and no name that is taken. *)
Definition identifier (key : string) : bool :=
  match key with
  | EmptyString => false
  | String c rest =>
      (0 <? occurrences c letters) && made_of letters_and_digits rest
      && negb (existsb (String.eqb key) taken)
  end.

Definition well_written (seg : segment) : bool :=
  match seg with
  | Text s => quiet s
  | Placeholder key | Spaced key => identifier key
  end.

(** The template text: a placeholder is its key between double braces. *)
Fixpoint written (segs : list segment) : string :=
  match segs with
  | [] => EmptyString
  | Text s :: rest => s +:+ written rest
  | Placeholder key :: rest => "{{" +:+ key +:+ "}}" +:+ written rest
  | Spaced key :: rest => "{{ " +:+ key +:+ " }}" +:+ written rest
  end.

(** The template with every placeholder replaced by the escaped value
    mapped to its key, and by nothing when no value is. *)
Fixpoint filled (mapping : string -> option string) (segs : list segment) : string :=
  match segs with
  | [] => EmptyString
  | Text s :: rest => s +:+ filled mapping rest
  | Placeholder key :: rest | Spaced key :: rest =>
      match mapping key with
      | Some v => escaped v
      | None => EmptyString
      end +:+ filled mapping rest
  end.

(** The world after more events. *)
Definition after_events (w : world) (events : list event) : world :=
  World (dirs w) (files w) (trace w ++ events).

(** The map the loop has built after [entries], started from [argsMap]. *)
Definition collected (argsMap : gmap string string) (entries : list string)
  : gmap string string :=
  fold_left
    (fun m entry =>
       if well_formed entry
       then set_property m (nth 0 (split ":" entry) "") (nth 1 (split ":" entry) "")
       else m)
    entries argsMap.

Definition complaint (entry : string) : event := ConsoleLog "Arguments input error".

(** ** JSON text *)

(** The text of the items of an array after the first, each after its
    comma; the text of a member of an object, and of the members after
    the first. *)
Definition more_items (items : list value) : string :=
  fold_right (fun v text => "," +:+ Reference.stringify v +:+ text) EmptyString items.

Definition member_text (kv : string * value) : string :=
  Reference.quoted (fst kv) +:+ ":" +:+ Reference.stringify (snd kv).

Definition more_members (props : list (string * value)) : string :=
  fold_right (fun kv text => "," +:+ member_text kv +:+ text) EmptyString props.

(** ** Paths and stores *)

(** A name in a path: not empty, without a separator, and neither of
    the names [.] and [..], which stand for other directories. *)
Definition proper (name : string) : bool :=
  negb (String.eqb name "") && (occurrences "/" name =? 0)
  && negb (String.eqb name ".") && negb (String.eqb name "..").

(** Where a path starts: at the root, or at the working directory. *)
Inductive base : Type :=
| Root
| Here.

(** The path of the names below a base, written in the normal way. *)
Definition place (b : base) (names : list string) : string :=
  match b, names with
  | Root, _ => "/" +:+ Reference.join "/" names
  | Here, [] => "."
  | Here, _ :: _ => Reference.join "/" names
  end.

(** The names of a path below a base. *)
Definition names_of (b : base) (p : string) : list string :=
  match b with
  | Root =>
      match p with
      | EmptyString => []
      | String _ rest =>
          match rest with
          | EmptyString => []
          | String _ _ => split "/" rest
          end
      end
  | Here => if String.eqb p "." then [] else split "/" p
  end.

Definition placed (b : base) (p : string) : bool :=
  forallb proper (names_of b p) && String.eqb (place b (names_of b p)) p.

(** The directories above the file with the names [folders] and then
    its own: the base, and the directory of every name on the way. *)
Definition ancestors (b : base) (folders : list string) : list string :=
  List.map (fun k => place b (take k folders)) (seq 0 (S (length folders))).

(** A store that is a picture of a file system: every path in it is
    written in the normal way from the same base, so that two paths of
    the store are two places, and no directory is also a file. *)
Definition store_ok (b : base) (w : world) : bool :=
  forallb (fun d => placed b d && bool_decide (files w !! d = None)) (base.elements (dirs w))
  && forallb (placed b) (List.map fst (map_to_list (files w))).

(** The store takes a file with the names [folders] and then [name]:
    the names are proper, the path is no directory of the store, and no
    directory above it is a file of the store. *)
Definition accepts (w : world) (b : base) (folders : list string) (name : string) : bool :=
  forallb proper (folders ++ [name])
  && bool_decide (place b (folders ++ [name]) ∉ dirs w)
  && forallb (fun d => bool_decide (files w !! d = None)) (ancestors b folders).

(** ** Instances *)

(** A store for the instances below: one file holding the JSON text of an
    object, one holding text that is no JSON, and no file elsewhere. *)
Definition sample_value : value :=
  JObj [("name", JStr "job"); ("retries", JNum 3); ("tags", JArr [JStr "a"; JNull])].

Definition sample_fallback : value := JObj [("name", JStr "default")].

Definition sample_world : world :=
  World {["/cfg"]}
        (<["/cfg/job.json" := Reference.stringify sample_value]>
           (<["/cfg/broken.json" := "{name"]> ∅))
        [].

End UtilsSpec.

Module TableSpec.
Import JS ApiTestCases.

(** ** Reading the table *)

(** The table built from a fixture, a job configuration and a heap. *)
Definition table (c : ClusterDescriptor) (cfg : value) (h : heap) : value :=
  fst (ApiDefaultTestCases c cfg h).

Definition before (entry : value) : list value := elements (field "before" entry).
Definition tests (entry : value) : list value := elements (field "tests" entry).
Definition after (entry : value) : list value := elements (field "after" entry).
Definition parameters (op : value) : list value := elements (field "parameters" op).

(** Whether a property is present. *)
Definition has (k : string) (v : value) : bool :=
  match field k v with
  | Some _ => true
  | None => false
  end.

(** The two places an expected response could be written at: beside
    [operation] in the variant, or inside the variant's [operation]. *)
Definition variant_level (variant : value) : option value :=
  field "response" variant.

Definition operation_level (variant : value) : option value :=
  match field "operation" variant with
  | Some op => field "response" op
  | None => None
  end.

(** The parameters of the operation of a variant. *)
Definition variant_parameters (variant : value) : list value :=
  match field "operation" variant with
  | Some op => parameters op
  | None => []
  end.

Definition expects (statusCode : Z) (code message : string) : value :=
  JObj [("statusCode", JNum statusCode);
        ("expectResult", JObj [("code", JStr code); ("message", JStr message)])].

(** What the specification says of the entry for basic login, with the
    place [expected] where a variant's expected response is looked up.
    The variant with the right credentials overrides no response, so the
    default of a successful call applies to it, and the teardown deletes
    the token it reads from the result of that variant. *)
Definition login_entry (c : ClusterDescriptor) (expected : value -> option value)
    (tbl : value) : Prop :=
  exists entry correct nouser badpassword : value,
    field "post /api/v2/authn/basic/login" tbl = Some entry
    /\ tests entry = [correct; nouser; badpassword]
    /\ variant_parameters correct = [raw (JStr (username c)); raw (JStr (password c))]
    /\ expected correct = None
    /\ after entry =
         [JObj [("tag", JStr "token"); ("operationId", JStr "deleteToken");
                ("parameters", JArr [fromResult "testResults" [JStr "token"] 0])]]
    /\ variant_parameters nouser = [raw (JStr "nonexistentuser"); raw (JStr "password")]
    /\ expected nouser =
         Some (expects 400 "NoUserError" "User nonexistentuser is not found.")
    /\ variant_parameters badpassword =
         [raw (JStr (username c)); raw (JStr "incorrectpassword")]
    /\ expected badpassword =
         Some (expects 400 "IncorrectPasswordError" "Password is incorrect.").

(** ** Execution modes of a variant *)

(** A property of every variant of every entry. *)
Definition every_variant (P : value -> Prop) (tbl : value) : Prop :=
  Forall (fun kv => Forall P (tests (snd kv))) (own_props tbl).

(** Exactly one of [operation] and [customizedTest] is present. *)
Definition exactly_one_mode (variant : value) : Prop :=
  xorb (has "operation" variant) (has "customizedTest" variant) = true.

(** Not both are present. *)
Definition at_most_one_mode (variant : value) : Prop :=
  has "operation" variant && has "customizedTest" variant = false.

(** The positions, from 0, of the variants of a list that have neither. *)
Fixpoint neither_from (i : nat) (variants : list value) : list nat :=
  match variants with
  | [] => []
  | variant :: rest =>
      if has "operation" variant || has "customizedTest" variant
      then neither_from (S i) rest
      else i :: neither_from (S i) rest
  end.

(** The variants of the table with neither, as entry key and position. *)
Definition variants_with_neither (tbl : value) : list (string * nat) :=
  flat_map (fun kv => List.map (fun i => (fst kv, i)) (neither_from 0 (tests (snd kv))))
    (own_props tbl).

(** ** Parameters taken from earlier results *)

(** Where an operation of an entry runs: as the [i]-th setup operation,
    as the operation of the [j]-th variant, or as the [k]-th teardown
    operation; all counted from 0. *)
Inductive place : Type :=
| InBefore (i : nat)
| InTests (j : nat)
| InAfter (k : nat).

Definition is_after (pl : place) : bool :=
  match pl with
  | InAfter _ => true
  | _ => false
  end.

(** The operations of an entry, each with its place, in the order they
    run. *)
Definition placed_operations (entry : value) : list (place * value) :=
  imap (fun i op => (InBefore i, op)) (before entry)
  ++ omap id (imap (fun j variant =>
                      match field "operation" variant with
                      | Some op => Some (InTests j, op)
                      | None => None
                      end) (tests entry))
  ++ imap (fun k op => (InAfter k, op)) (after entry).

Definition is_fromResult (spec : value) : bool :=
  match field "type" spec with
  | Some (JStr type) => String.eqb type "fromResult"
  | _ => false
  end.

Definition resultType_is (name : string) (spec : value) : bool :=
  match field "resultType" spec with
  | Some (JStr resultType) => String.eqb resultType name
  | _ => false
  end.

Definition resultIndex (spec : value) : option Z :=
  match field "resultIndex" spec with
  | Some (JNum n) => Some n
  | _ => None
  end.

(** The number of setup operations that have run when the operation at
    a place starts. *)
Definition before_results_at (entry : value) (pl : place) : nat :=
  match pl with
  | InBefore i => i
  | InTests _ | InAfter _ => length (before entry)
  end.

(** The number of variants, from the first on, that run a declarative
    operation: their results are there, in this order, once the variants
    have run. *)
Fixpoint declarative_prefix (variants : list value) : nat :=
  match variants with
  | [] => 0
  | variant :: rest =>
      if has "customizedTest" variant then 0 else S (declarative_prefix rest)
  end.

(** A parameter specification at a place refers, if it is taken from a
    result, to a result that is there when it is resolved. *)
Definition already_executed (entry : value) (pl : place) (spec : value) : Prop :=
  is_fromResult spec = true ->
  exists index : nat,
    resultIndex spec = Some (Z.of_nat index)
    /\ ((resultType_is "beforeResults" spec = true
         /\ index < before_results_at entry pl)
        \/ (resultType_is "testResults" spec = true
            /\ is_after pl = true
            /\ index < declarative_prefix (tests entry))).

Definition already_executedb (entry : value) (pl : place) (spec : value) : bool :=
  if is_fromResult spec then
    match resultIndex spec with
    | Some n =>
        (0 <=? n)%Z
        && ((resultType_is "beforeResults" spec
             && (Z.to_nat n <? before_results_at entry pl))
            || (resultType_is "testResults" spec
                && is_after pl
                && (Z.to_nat n <? declarative_prefix (tests entry))))
    | None => false
    end
  else true.

(** A property of every parameter specification of every operation of
    every entry. *)
Definition every_parameter (P : value -> place -> value -> Prop) (tbl : value) : Prop :=
  Forall
    (fun kv =>
       Forall (fun po => Forall (P (snd kv) (fst po)) (parameters (snd po)))
         (placed_operations (snd kv)))
    (own_props tbl).

(** The specifications of the table taken from a result: entry key,
    place, result list and index. *)
Definition fromResult_occurrences (tbl : value) : list (string * place * string * Z) :=
  flat_map
    (fun kv =>
       flat_map
         (fun po =>
            flat_map
              (fun spec =>
                 if is_fromResult spec then
                   match field "resultType" spec, resultIndex spec with
                   | Some (JStr resultType), Some n => [(fst kv, fst po, resultType, n)]
                   | _, _ => []
                   end
                 else [])
              (parameters (snd po)))
         (placed_operations (snd kv)))
    (own_props tbl).

(** ** The random suffix of job names *)

(** The keys of the entries about jobs, in the order of the table. *)
Definition job_keys : list string :=
  [ "post /api/v2/jobs";
    "get /api/v2/jobs/{user}~{job}";
    "get /api/v2/jobs/{user}~{job}/config";
    "put /api/v2/jobs/{user}~{job}/exectionType";
    "get /api/v2/jobs/{user}~{job}/job-attempts";
    "get /api/v2/jobs/{user}~{job}/job-attempts/{attemptIndex}" ].

(** The heap after [i] calls of [new]. *)
Fixpoint heap_after (i : nat) (h : heap) : heap :=
  match i with
  | O => h
  | S i' => snd (new (heap_after i' h))
  end.

Definition operationId_is (name : string) (op : value) : bool :=
  match field "operationId" op with
  | Some (JStr operationId) => String.eqb operationId name
  | _ => false
  end.

(** The operations of an entry in the order they are built. *)
Definition operations_in_order (entry : value) : list value :=
  before entry ++ omap (field "operation") (tests entry) ++ after entry.

(** The job an operation names: [createJob] in the [name] of the
    configuration it submits, the other operations on jobs in their
    second parameter. *)
Definition job_name (op : value) : option value :=
  if operationId_is "createJob" op then
    match parameters op with
    | [config] =>
        match field "value" config with
        | Some submitted => field "name" submitted
        | None => None
        end
    | _ => None
    end
  else
    match parameters op with
    | _ :: name :: _ => field "value" name
    | _ => None
    end.

(** The entry at [key] builds one [createJob] operation, first, and every
    operation of the entry, the teardown included, names the job [name]. *)
Definition one_job (tbl : value) (key name : string) : Prop :=
  exists (entry create : value) (others : list value),
    field key tbl = Some entry
    /\ operations_in_order entry = create :: others
    /\ operationId_is "createJob" create = true
    /\ Forall (fun op => operationId_is "createJob" op = false) others
    /\ after entry <> []
    /\ Forall (fun op => job_name op = Some (JStr name)) (create :: others).

(** A fixture, a job configuration and a heap to evaluate the table on. *)
Definition sample_cluster : ClusterDescriptor :=
  {| username := "admin"; password := "admin-password";
     rest_server_uri := "10.0.0.1/rest-server"; token := "token-of-admin" |}.

Definition sample_config : value :=
  JObj [("protocolVersion", JNum 2); ("name", JStr "placeholder"); ("type", JStr "job")].

Definition sample_heap : heap := fresh (fun n => Byte.x2a) 0.

End TableSpec.

Module UtilsMoreSpec.
Import JS Utils UtilsSpec.

(** The console message of [jobTemplate] for an entry it skips. *)
Definition input_error : event := ConsoleLog "Arguments input error".

(** What a run of [jobTemplate] leaves in the trace, with [complaints]
    messages between the configuration of the engine and its call. *)
Definition template_events (complaints : nat) (text : string)
    (argsMap : gmap string string) : list event :=
  NunjucksConfigure true
  :: repeat input_error complaints ++ [NunjucksRenderString text argsMap].

End UtilsMoreSpec.

Module TableMoreSpec.
Import JS ApiTestCases TableSpec.

(** ** Random strings *)

Definition lower_hex (c : ascii) : bool :=
  existsb (Ascii.eqb c) (list_ascii_of_string "0123456789abcdef").

(** The four bytes [new] draws at a heap. *)
Definition next_bytes (h : heap) : list byte :=
  List.map (entropy h) (seq (drawn h) 4).

(** The value of a hexadecimal digit, and the bytes of a string of such
    digits, two digits per byte. *)
Definition hex_value (c : ascii) : N :=
  let n := N_of_ascii c in
  if (n <? 58)%N then (n - 48)%N else (n - 87)%N.

Fixpoint of_hex (s : string) : list byte :=
  match s with
  | String hi (String lo rest) =>
      match Byte.of_N (16 * hex_value hi + hex_value lo) with
      | Some b => b :: of_hex rest
      | None => []
      end
  | _ => []
  end.

(** ** Keys and operations of the table *)

(** A key is a method, a space and a path of the service. *)
Definition is_route (key : string) : bool :=
  match split " " key with
  | [method; path] =>
      existsb (String.eqb method) ["get"; "post"; "put"; "delete"]
      && String.prefix "/api/v2/" path
  | _ => false
  end.

Definition is_string (o : option value) : bool :=
  match o with
  | Some (JStr _) => true
  | _ => false
  end.

(** An operation that names what to call: its tag is one of the client
    categories and it has an operation name. *)
Definition complete (op : value) : bool :=
  match field "tag" op with
  | Some (JStr tag) =>
      existsb (String.eqb tag) ["token"; "authn"; "user"; "group"; "job"; "storage"]
      && is_string (field "operationId" op)
  | _ => false
  end.

(** An operation that leaves what to call to the key of its entry. *)
Definition by_key (op : value) : bool :=
  negb (has "tag" op) && negb (has "operationId" op).

(** The operations the variants of an entry write out. *)
Definition test_operations (entry : value) : list value :=
  omap (field "operation") (tests entry).

Definition is_path_step (v : value) : bool :=
  match v with
  | JStr _ => true
  | JNum n => (0 <=? n)%Z
  | _ => false
  end.

Definition keys_of (v : value) : list string := List.map fst (own_props v).

(** A parameter specification is one of the two shapes, with nothing
    else in it: a raw value, or a path into an earlier result. *)
Definition is_parameter_spec (spec : value) : bool :=
  match field "type" spec with
  | Some (JStr type) =>
      if String.eqb type "raw" then
        bool_decide (keys_of spec = ["type"; "value"])
      else if String.eqb type "fromResult" then
        bool_decide (keys_of spec = ["type"; "resultType"; "resultPath"; "resultIndex"])
        && (resultType_is "beforeResults" spec || resultType_is "testResults" spec)
        && match field "resultPath" spec with
           | Some (JArr (step :: steps)) => forallb is_path_step (step :: steps)
           | _ => false
           end
        && match resultIndex spec with
           | Some n => (0 <=? n)%Z
           | None => false
           end
      else false
  | _ => false
  end.

(** ** Teardown *)

(** The operation that undoes what an operation creates. *)
Definition undone_by (op undo : value) : bool :=
  if operationId_is "createUser" op then operationId_is "deleteUser" undo
  else if operationId_is "createGroup" op then operationId_is "deleteGroup" undo
  else if operationId_is "createJob" op then
    operationId_is "updateJobExecutionType" undo
    && match parameters undo with
       | [_; _; executionType] =>
           match field "value" executionType with
           | Some (JStr type) => String.eqb type "STOP"
           | _ => false
           end
       | _ => false
       end
  else false.

Definition creates (op : value) : bool :=
  operationId_is "createUser" op || operationId_is "createGroup" op
  || operationId_is "createJob" op.

(** Every operation of the list that creates a user, a group or a job is
    followed, later in the list, by the operation that undoes it. *)
Fixpoint cleaned_up (ops : list value) : bool :=
  match ops with
  | [] => true
  | op :: rest => (negb (creates op) || existsb (undone_by op) rest) && cleaned_up rest
  end.

(** The keys of the entries with an operation that creates something. *)
Definition creating_entries (tbl : value) : list string :=
  List.map fst
    (List.filter (fun kv => existsb creates (operations_in_order (snd kv)))
       (own_props tbl)).

(** The jobs the entries about jobs create, entry by entry. *)
Definition created_jobs (tbl : value) : list value :=
  omap (fun key =>
          match field key tbl with
          | Some entry =>
              match List.filter (operationId_is "createJob") (operations_in_order entry) with
              | [create] => job_name create
              | _ => None
              end
          | None => None
          end)
       job_keys.

(** A heap whose byte at position [n] is [n], for the first 256. *)
Definition counting_heap : heap :=
  fresh (fun n => default Byte.x00 (Byte.of_N (N.of_nat n))) 0.

End TableMoreSpec.

Module HookSpec.
Import JS ApiTestCases TableSpec CustomizedTests.

(** A service without access control: every call returns, and a login
    returns an object. *)
Definition accepts_everything `{Service} : Prop :=
  (forall client st, exists v, fst (token_getTokens client st) = inl v)
  /\ (forall client user password st,
        exists v, fst (authn_basicLogin client user password st) = inl v
                  /\ value_is_null v = false)
  /\ (forall client user st, exists v, fst (user_createUser client user st) = inl v).

(** Results with one setup result that is an object. *)
Definition one_before_result (results : IOperationResults) : Prop :=
  exists (r : value) (rest : list value),
    beforeResults results = Some (r :: rest) /\ value_is_null r = false.

(** A service that lets everybody do everything; it has no state. *)
#[export] Instance open_service : Service := {|
  server := unit;
  token_getTokens := fun _ st => (inl (JArr []), st);
  authn_basicLogin := fun _ _ _ st => (inl (JObj [("token", JStr "t")]), st);
  authn_basicLogout := fun _ st => (inl (JStr "Logout successfully"), st);
  user_createUser := fun _ _ st => (inl (JObj []), st)
|}.

Definition sample_results : IOperationResults :=
  {| beforeResults := Some [JObj [("token", JStr "t")]]; testResults := Some [] |}.

Definition sample_state : state (service := open_service) :=
  State (service := open_service) tt [].

(** A step that registers no teardown, and a computation that registers
    the teardown [t], once, exactly when it returns. *)
Definition quiet `{Service} {A} (c : Test A) : Prop :=
  forall st, teardowns (snd (c st)) = teardowns st.

Definition registers_on_return `{Service} {A} (t : teardown) (c : Test A) : Prop :=
  forall st,
    teardowns (snd (c st)) =
      match fst (c st) with
      | Returned _ => teardowns st ++ [t]
      | Threw _ => teardowns st
      end.

(** The hooks the variants of the table name, in the order of the table. *)
Definition hook_names (tbl : value) : list string :=
  flat_map
    (fun kv =>
       flat_map
         (fun variant =>
            match field "customizedTest" variant with
            | Some (JStr name) => [name]
            | _ => []
            end)
         (tests (snd kv)))
    (own_props tbl).

(** A variant names one of the two hooks that read the token of the
    first setup result. *)
Definition reads_before_token (variant : value) : bool :=
  match field "customizedTest" variant with
  | Some (JStr name) =>
      String.eqb name "logoutWithCorrectToken"
      || String.eqb name "createUserByApplicationToken"
  | _ => false
  end.

(** There is no first setup result to read a token from: no results
    were passed, or no list of setup results, or an empty one, or its
    first element is [null]. *)
Definition no_before_result (results : option IOperationResults) : bool :=
  match results with
  | None => true
  | Some given =>
      match beforeResults given with
      | None | Some [] | Some (JNull :: _) => true
      | Some (_ :: _) => false
      end
  end.

(** The keys of the entries with a variant that satisfies [p]. *)
Definition entries_with (p : value -> bool) (tbl : value) : list string :=
  List.map fst (List.filter (fun kv => existsb p (tests (snd kv))) (own_props tbl)).

(** The first setup operation of an entry is one whose result carries a
    token: a login or the creation of an application token. *)
Definition first_before_gives_token (entry : value) : bool :=
  match before entry with
  | op :: _ => operationId_is "basicLogin" op || operationId_is "createApplicationToken" op
  | [] => false
  end.

End HookSpec.

(* ================================================================== *)
(** * Properties of the helpers of [utils.ts] *)
(* ================================================================== *)

Module UtilsFacts.
Import JS Utils UtilsSpec.

(** ** Splitting *)

(** A string splits into one piece more than it has separators. *)
Lemma split_length (sep : ascii) (s : string) :
  length (split sep s) = S (occurrences sep s).
Proof.
  induction s as [|c rest IH]; simpl; [reflexivity|].
  destruct (Ascii.eqb c sep); simpl.
  - now rewrite IH.
  - destruct (split sep rest) eqn:E; simpl in *; [discriminate|exact IH].
Qed.

(** Without a separator in it, a string is its only piece. *)
Lemma split_without (sep : ascii) (s : string) :
  occurrences sep s = 0 -> split sep s = [s].
Proof.
  induction s as [|c rest IH]; simpl; [reflexivity|].
  destruct (Ascii.eqb c sep); simpl; [discriminate|].
  intros Hn. now rewrite (IH Hn).
Qed.

(** An entry with exactly one colon splits into the text before the
    colon and the text after it. *)
Lemma split_one_colon (entry : string) :
  occurrences ":" entry = 1 ->
  split ":" entry = [before_colon entry; after_colon entry].
Proof.
  induction entry as [|c rest IH]; simpl; [discriminate|].
  destruct (Ascii.eqb c ":") eqn:Ec; simpl; intros Hn.
  - injection Hn as Hn. now rewrite (split_without _ _ Hn).
  - now rewrite (IH Hn).
Qed.

(** Exactly one colon is what makes an entry well formed. *)
Lemma well_formed_one_colon (entry : string) :
  occurrences ":" entry = 1 -> well_formed entry = true.
Proof.
  intros Hn. unfold well_formed. now rewrite split_length, Hn.
Qed.

Lemma well_formed_split (entry : string) :
  well_formed entry = true ->
  split ":" entry = [before_colon entry; after_colon entry].
Proof.
  unfold well_formed. rewrite split_length. intros Hn.
  apply split_one_colon. apply Nat.eqb_eq in Hn. lia.
Qed.

(** ** Worlds *)

Lemma after_events_nil (w : world) : after_events w [] = w.
Proof. destruct w. unfold after_events. simpl. now rewrite app_nil_r. Qed.

Lemma after_events_app (w : world) (es es' : list event) :
  after_events (after_events w es) es' = after_events w (es ++ es').
Proof. unfold after_events. simpl. now rewrite app_assoc. Qed.

Lemma emit_after_events (e : event) (w : world) : emit e w = after_events w [e].
Proof. reflexivity. Qed.

(** ** The loop of [jobTemplate] *)

Lemma well_formed_one_colon_eq (entry : string) : well_formed entry = one_colon entry.
Proof. unfold well_formed, one_colon. now rewrite split_length. Qed.

Lemma malformed_one_colon (entry : string) : malformed entry = negb (one_colon entry).
Proof. unfold malformed. fold (well_formed entry). now rewrite well_formed_one_colon_eq. Qed.

(** The loop never throws: it ends with the collected map, having logged
    one complaint per malformed entry. *)
Lemma for_of_add_pair `{Platform} (entries : list string) :
  forall (argsMap : gmap string string) (w : world),
    for_of add_pair argsMap entries w =
      (Ok (collected argsMap entries),
       after_events w (List.map complaint (List.filter malformed entries))).
Proof.
  induction entries as [|entry rest IH]; intros argsMap w; simpl.
  - unfold ret. now rewrite after_events_nil.
  - unfold bind at 1. unfold add_pair, malformed, well_formed.
    destruct (length (split ":" entry) =? 2) eqn:E; simpl.
    + unfold ret at 1. now rewrite IH.
    + unfold bind at 1. unfold log, ret at 1. rewrite IH, emit_after_events.
      now rewrite after_events_app.
Qed.

(** The collected map holds the bindings of the entries that bind, a
    later entry overriding an earlier one with the same key. *)
Lemma collected_lookup (entries : list string) :
  forall (argsMap : gmap string string) (key : string),
    collected argsMap entries !! key =
      match mapped (List.filter binds entries) key with
      | Some v => Some v
      | None => argsMap !! key
      end.
Proof.
  induction entries as [|entry rest IH]; intros argsMap key; [reflexivity|].
  unfold collected in *. cbn [fold_left List.filter]. rewrite IH.
  assert (Hb : binds entry
               = well_formed entry && negb (String.eqb (before_colon entry) "__proto__")).
  { unfold binds. now rewrite well_formed_one_colon_eq. }
  rewrite Hb.
  destruct (well_formed entry) eqn:E; cbn [andb]; [|reflexivity].
  rewrite (well_formed_split _ E). cbn [nth]. unfold set_property.
  destruct (String.eqb (before_colon entry) "__proto__"); cbn [negb mapped];
    [reflexivity|].
  destruct (mapped (List.filter binds rest) key); [reflexivity|].
  destruct (String.eqb (before_colon entry) key) eqn:Ek.
  - apply String.eqb_eq in Ek. subst key. now rewrite lookup_insert_eq.
  - apply String.eqb_neq in Ek. now rewrite lookup_insert_ne.
Qed.

Lemma filter_all_true {A} (p : A -> bool) (l : list A) :
  Forall (fun x => p x = true) l -> List.filter p l = l.
Proof.
  induction 1 as [|x l Hx _ IH]; simpl; [reflexivity|]. now rewrite Hx, IH.
Qed.

Lemma filter_all_false {A} (p : A -> bool) (l : list A) :
  Forall (fun x => p x = false) l -> List.filter p l = [].
Proof.
  induction 1 as [|x l Hx _ IH]; simpl; [reflexivity|]. now rewrite Hx, IH.
Qed.

Lemma forallb_Forall_true {A} (p : A -> bool) (l : list A) :
  forallb p l = true -> Forall (fun x => p x = true) l.
Proof.
  induction l as [|x l IH]; cbn [forallb]; intros Hl; [constructor|].
  apply andb_prop in Hl as [Hx Hl]. constructor; [exact Hx|exact (IH Hl)].
Qed.

(** What [jobTemplate] does with an argument string, whatever the
    platform: its outcome is that of the engine. *)
Lemma jobTemplate_given `{Platform} (file args : string) (w : world) :
  jobTemplate file (Given args) w =
    (renderString true file (collected ∅ (split ";" args)),
     after_events w
       (NunjucksConfigure true
        :: List.map complaint (List.filter malformed (split ";" args))
        ++ [NunjucksRenderString file (collected ∅ (split ";" args))])).
Proof.
  unfold jobTemplate. unfold bind at 1. unfold log at 1.
  unfold bind at 1. rewrite for_of_add_pair.
  unfold bind, log, lift. rewrite !emit_after_events, !after_events_app.
  reflexivity.
Qed.

(** ** Joining and splitting *)

Lemma append_cons (c : ascii) (s t : string) :
  String c s +:+ t = String c (s +:+ t).
Proof. reflexivity. Qed.

Lemma append_empty (t : string) : EmptyString +:+ t = t.
Proof. reflexivity. Qed.

Lemma append_nil_r (s : string) : s +:+ EmptyString = s.
Proof.
  induction s as [|c s' IH]; [reflexivity|]. now rewrite append_cons, IH.
Qed.

Lemma append_assoc (s t u : string) : (s +:+ t) +:+ u = s +:+ (t +:+ u).
Proof.
  induction s as [|c s' IH]; [reflexivity|]. now rewrite !append_cons, IH.
Qed.

Lemma list_ascii_append (s t : string) :
  list_ascii_of_string (s +:+ t) = list_ascii_of_string s ++ list_ascii_of_string t.
Proof. induction s as [|c s' IH]; [reflexivity|]. rewrite append_cons. cbn. now rewrite IH. Qed.

(** The pieces of a string hold no separator. *)
Lemma split_pieces (sep : ascii) (s : string) :
  Forall (fun piece => occurrences sep piece = 0) (split sep s).
Proof.
  induction s as [|c rest IH]; cbn [split]; [repeat constructor|].
  destruct (Ascii.eqb c sep) eqn:Ec; [constructor; [reflexivity|exact IH]|].
  destruct (split sep rest) as [|piece pieces].
  - repeat constructor. cbn [occurrences]. now rewrite Ec.
  - inversion IH as [|? ? Hp Hps]; subst.
    constructor; [cbn [occurrences]; now rewrite Ec|exact Hps].
Qed.

(** Joining the pieces of a string gives the string back. *)
Lemma join_split (sep : ascii) (s : string) :
  Reference.join (String sep EmptyString) (split sep s) = s.
Proof.
  induction s as [|c rest IH]; [reflexivity|]. cbn [split].
  pose proof (split_length sep rest) as Hlen.
  destruct (split sep rest) as [|piece pieces]; [discriminate|].
  destruct (Ascii.eqb c sep) eqn:Ec.
  - apply Ascii.eqb_eq in Ec. subst c.
    change (Reference.join (String sep EmptyString) (EmptyString :: piece :: pieces))
      with (EmptyString +:+ String sep EmptyString
              +:+ Reference.join (String sep EmptyString) (piece :: pieces)).
    now rewrite IH.
  - destruct pieces as [|next pieces'].
    + cbn [Reference.join] in *. now rewrite IH.
    + change (Reference.join (String sep EmptyString) (String c piece :: next :: pieces'))
        with (String c piece +:+ String sep EmptyString
                +:+ Reference.join (String sep EmptyString) (next :: pieces')).
      change (Reference.join (String sep EmptyString) (piece :: next :: pieces'))
        with (piece +:+ String sep EmptyString
                +:+ Reference.join (String sep EmptyString) (next :: pieces')) in IH.
      now rewrite append_cons, IH.
Qed.

(** A piece without the separator, followed by the separator, is the
    first piece of the split. *)
Lemma split_first (sep : ascii) (piece tail : string) :
  occurrences sep piece = 0 ->
  split sep (piece +:+ String sep tail) = piece :: split sep tail.
Proof.
  induction piece as [|c piece' IH]; cbn [occurrences]; intros Hn.
  - rewrite append_empty. cbn [split]. now rewrite Ascii.eqb_refl.
  - rewrite append_cons. cbn [split].
    destruct (Ascii.eqb c sep); [discriminate|]. now rewrite (IH Hn).
Qed.

(** Splitting undoes joining, for pieces that hold no separator. *)
Lemma split_join (sep : ascii) (pieces : list string) :
  pieces <> [] ->
  Forall (fun piece => occurrences sep piece = 0) pieces ->
  split sep (Reference.join (String sep EmptyString) pieces) = pieces.
Proof.
  intros Hne Hall. induction Hall as [|piece rest Hp Hrest IH]; [now destruct Hne|].
  destruct rest as [|next rest'].
  - cbn [Reference.join]. now apply split_without.
  - change (Reference.join (String sep EmptyString) (piece :: next :: rest'))
      with (piece +:+ String sep EmptyString
              +:+ Reference.join (String sep EmptyString) (next :: rest')).
    rewrite append_cons, append_empty, split_first by exact Hp.
    now rewrite IH.
Qed.

(** ** The reference engine on written templates *)

Lemma prepend_empty (result : outcome string) :
  Reference.prepend EmptyString result = result.
Proof. now destruct result. Qed.

Lemma prepend_prepend (s t : string) (result : outcome string) :
  Reference.prepend s (Reference.prepend t result) = Reference.prepend (s +:+ t) result.
Proof.
  destruct result; cbn [Reference.prepend]; [now rewrite append_assoc|reflexivity].
Qed.

Ltac bools :=
  repeat match goal with
         | H : _ && _ = true |- _ => apply andb_prop in H as [? ?]
         | H : negb _ = true |- _ => apply negb_true_iff in H
         | H : _ || _ = false |- _ => apply orb_false_iff in H as [? ?]
         end.

Lemma quiet_single (c : ascii) :
  quiet (String c EmptyString) = true ->
  Ascii.eqb c "{" = false /\ Ascii.eqb c "#" = false.
Proof.
  unfold quiet. cbn [has_pair last_char negb andb]. intros Hq. bools. now split.
Qed.

Lemma quiet_cons (c c' : ascii) (rest : string) :
  quiet (String c (String c' rest)) = true ->
  quiet (String c' rest) = true
  /\ (Ascii.eqb c "{" = true ->
      Ascii.eqb c' "{" = false /\ Ascii.eqb c' "%" = false /\ Ascii.eqb c' "#" = false)
  /\ (Ascii.eqb c "#" = true -> Ascii.eqb c' "}" = false).
Proof.
  unfold quiet.
  change (last_char (String c (String c' rest))) with (last_char (String c' rest)).
  change (has_pair ?a ?b (String c (String c' rest)))
    with ((Ascii.eqb c a && Ascii.eqb c' b) || has_pair a b (String c' rest)).
  intros Hq. bools.
  repeat match goal with H : has_pair _ _ _ = false |- _ => rewrite H; clear H end.
  split; [assumption|]. split.
  - intros Hc. rewrite Hc in *. cbn [andb] in *. now repeat split.
  - intros Hc. rewrite Hc in *. cbn [andb] in *. assumption.
Qed.

Section Rendering.
Variable autoescape : bool.
Variable context : gmap string string.

Lemma render_plain (c : ascii) (rest : string) :
  Ascii.eqb c "{" = false -> Ascii.eqb c "#" = false ->
  Reference.render_from autoescape context None (String c rest) =
    Reference.prepend (String c EmptyString)
      (Reference.render_from autoescape context None rest).
Proof.
  intros Hb Hh. destruct rest; cbn [Reference.render_from]; now rewrite Hb, Hh.
Qed.

Lemma render_brace (c' : ascii) (rest : string) :
  Ascii.eqb c' "{" = false -> Ascii.eqb c' "%" = false -> Ascii.eqb c' "#" = false ->
  Reference.render_from autoescape context None (String "{" (String c' rest)) =
    Reference.prepend "{" (Reference.render_from autoescape context None (String c' rest)).
Proof.
  intros Hb Hp Hh.
  change (Reference.render_from autoescape context None (String "{" (String c' rest)))
    with (if Ascii.eqb c' "{"
          then Reference.render_from autoescape context (Some EmptyString) rest
          else if Ascii.eqb c' "%" || Ascii.eqb c' "#"
               then Throw Unmodelled
               else Reference.prepend "{"
                      (Reference.render_from autoescape context None (String c' rest))).
  now rewrite Hb, Hp, Hh.
Qed.

Lemma render_hash (c' : ascii) (rest : string) :
  Ascii.eqb c' "}" = false ->
  Reference.render_from autoescape context None (String "#" (String c' rest)) =
    Reference.prepend "#" (Reference.render_from autoescape context None (String c' rest)).
Proof.
  intros Hc.
  change (Reference.render_from autoescape context None (String "#" (String c' rest)))
    with (if Ascii.eqb c' "}"
          then Throw TemplateError
          else Reference.prepend "#"
                 (Reference.render_from autoescape context None (String c' rest))).
  now rewrite Hc.
Qed.

(** A quiet stretch of text is rendered as it is. *)
Lemma render_text (s tail : string) :
  quiet s = true ->
  Reference.render_from autoescape context None (s +:+ tail) =
    Reference.prepend s (Reference.render_from autoescape context None tail).
Proof.
  induction s as [|c rest IH]; intros Hq.
  - now rewrite append_empty, prepend_empty.
  - destruct rest as [|c' rest'].
    + apply quiet_single in Hq as [Hb Hh].
      rewrite append_cons, append_empty. now apply render_plain.
    + apply quiet_cons in Hq as (Hq' & Hopen & Hclose).
      specialize (IH Hq'). rewrite append_cons.
      change (String c' rest' +:+ tail) with (String c' (rest' +:+ tail)) in *.
      destruct (Ascii.eqb c "{") eqn:Eb; [|destruct (Ascii.eqb c "#") eqn:Eh].
      * apply Ascii.eqb_eq in Eb. subst c. destruct (Hopen eq_refl) as (H1 & H2 & H3).
        rewrite render_brace by assumption. rewrite IH. now rewrite prepend_prepend.
      * apply Ascii.eqb_eq in Eh. subst c.
        rewrite render_hash by (now apply Hclose). rewrite IH.
        now rewrite prepend_prepend.
      * rewrite render_plain by assumption. rewrite IH. now rewrite prepend_prepend.
Qed.

(** Inside a placeholder the characters are read up to the closing
    braces, and what was read is evaluated. *)
Lemma render_key (key tail : string) :
  Reference.all_chars (fun c => negb (Ascii.eqb c "}")) key = true ->
  forall read : string,
    Reference.render_from autoescape context (Some read) (key +:+ "}}" +:+ tail) =
      match Reference.evaluate autoescape context (read +:+ key) with
      | Ok v => Reference.prepend v (Reference.render_from autoescape context None tail)
      | Throw e => Throw e
      end.
Proof.
  induction key as [|c key' IH]; intros Hn read.
  - rewrite append_nil_r. reflexivity.
  - cbn [Reference.all_chars] in Hn. apply andb_prop in Hn as [Hc Hn].
    apply negb_true_iff in Hc.
    rewrite append_cons. cbn [Reference.render_from]. rewrite Hc.
    rewrite (IH Hn). now rewrite append_assoc.
Qed.

End Rendering.

(** The characters of a key are those of a name, no blank and no closing
    brace. *)
Lemma key_char (c : ascii) :
  (0 <? occurrences c letters_and_digits) = true ->
  Reference.name_char c = true /\ Reference.is_space c = false
  /\ Ascii.eqb c "}" = false.
Proof.
  destruct c as [[] [] [] [] [] [] [] []]; vm_compute; intros Hc;
    first [discriminate Hc | repeat split].
Qed.

Lemma key_first_char (c : ascii) :
  (0 <? occurrences c letters) = true ->
  Reference.is_digit c = false /\ (0 <? occurrences c letters_and_digits) = true.
Proof.
  destruct c as [[] [] [] [] [] [] [] []]; vm_compute; intros Hc;
    first [discriminate Hc | repeat split].
Qed.

Lemma made_of_chars (s : string) :
  made_of letters_and_digits s = true ->
  Reference.all_chars Reference.name_char s = true
  /\ Forall (fun c => Reference.is_space c = false) (list_ascii_of_string s)
  /\ Reference.all_chars (fun c => negb (Ascii.eqb c "}")) s = true.
Proof.
  induction s as [|c rest IH]; cbn [made_of]; intros Hs.
  - repeat split. constructor.
  - apply andb_prop in Hs as [Hc Hs]. destruct (IH Hs) as (H1 & H2 & H3).
    destruct (key_char c Hc) as (Hn & Hb & Hclose).
    cbn [Reference.all_chars list_ascii_of_string]. rewrite Hn, H1, Hclose, H3.
    repeat split. now constructor.
Qed.

Lemma drop_while_none (p : ascii -> bool) (l : list ascii) :
  Forall (fun x => p x = false) l -> Reference.drop_while p l = l.
Proof. destruct 1 as [|x l Hx _]; cbn [Reference.drop_while]; [reflexivity|now rewrite Hx]. Qed.

Lemma trim_unspaced (s : string) :
  Forall (fun c => Reference.is_space c = false) (list_ascii_of_string s) ->
  Reference.trim s = s.
Proof.
  intros Hs. unfold Reference.trim.
  rewrite (drop_while_none _ _ Hs).
  rewrite drop_while_none by (now apply List.Forall_rev).
  now rewrite rev_involutive, string_of_list_ascii_of_string.
Qed.

Lemma among_incl (l l' : list string) (key : string) :
  forallb (Reference.among l') l = true ->
  Reference.among l' key = false -> Reference.among l key = false.
Proof.
  intros Hincl Hkey. destruct (Reference.among l key) eqn:E; [|reflexivity].
  apply existsb_exists in E as (x & Hin & Heq). apply String.eqb_eq in Heq. subst x.
  rewrite forallb_forall in Hincl. specialize (Hincl key Hin). congruence.
Qed.

(** A blank on either side of a word without blanks is trimmed away. *)
Lemma trim_spaced (s : string) :
  s <> EmptyString ->
  Forall (fun c => Reference.is_space c = false) (list_ascii_of_string s) ->
  Reference.trim (" " +:+ s +:+ " ") = s.
Proof.
  intros Hne Hs. unfold Reference.trim.
  rewrite !list_ascii_append. cbn [list_ascii_of_string app].
  change (Reference.drop_while Reference.is_space
            (" "%char :: list_ascii_of_string s ++ [" "%char]))
    with (Reference.drop_while Reference.is_space
            (list_ascii_of_string s ++ [" "%char])).
  assert (Hhead : Reference.drop_while Reference.is_space
                    (list_ascii_of_string s ++ [" "%char])
                  = list_ascii_of_string s ++ [" "%char]).
  { destruct s as [|c t]; [congruence|]. cbn [list_ascii_of_string app] in *.
    inversion Hs as [|? ? Hc _]; subst. cbn [Reference.drop_while]. now rewrite Hc. }
  rewrite Hhead, rev_app_distr. cbn [rev app].
  change (Reference.drop_while Reference.is_space
            (" "%char :: rev (list_ascii_of_string s)))
    with (Reference.drop_while Reference.is_space (rev (list_ascii_of_string s))).
  rewrite drop_while_none by (now apply List.Forall_rev).
  now rewrite rev_involutive, string_of_list_ascii_of_string.
Qed.

(** An identifier between the braces, with or without a blank on either
    side, is looked up in the context. *)
Lemma evaluate_identifier (autoescape : bool) (context : gmap string string)
    (key : string) :
  identifier key = true ->
  Reference.evaluate autoescape context key
  = Ok (Reference.substitute autoescape context key)
  /\ Reference.evaluate autoescape context (" " +:+ key +:+ " ")
     = Ok (Reference.substitute autoescape context key)
  /\ Reference.all_chars (fun c => negb (Ascii.eqb c "}")) key = true.
Proof.
  destruct key as [|c rest]; [discriminate|]. unfold identifier. intros Hk.
  apply andb_prop in Hk as [Hk Htaken]. apply andb_prop in Hk as [Hc Hrest].
  apply negb_true_iff in Htaken.
  destruct (key_first_char c Hc) as (Hdigit & Hc').
  assert (Hall : made_of letters_and_digits (String c rest) = true).
  { cbn [made_of]. now rewrite Hc', Hrest. }
  destruct (made_of_chars _ Hall) as (Hname & Hspace & Hclose).
  cut (Reference.is_name (String c rest)
       && negb (Reference.among Reference.ambient (String c rest)) = true).
  { intros Hlooked. unfold Reference.evaluate.
    assert (Hne : String c rest <> EmptyString) by discriminate.
    rewrite (trim_unspaced _ Hspace), (trim_spaced _ Hne Hspace).
    rewrite Hlooked. now repeat split. }
  assert (Hkw : Reference.among Reference.keywords (String c rest) = false).
  { apply (among_incl _ taken); [vm_compute; reflexivity|exact Htaken]. }
  assert (Ham : Reference.among Reference.ambient (String c rest) = false).
  { apply (among_incl _ taken); [vm_compute; reflexivity|exact Htaken]. }
  unfold Reference.is_name. now rewrite Hdigit, Hname, Hkw, Ham.
Qed.

Lemma render_placeholder (autoescape : bool) (context : gmap string string)
    (key tail : string) :
  identifier key = true ->
  Reference.render_from autoescape context None ("{{" +:+ key +:+ "}}" +:+ tail) =
    Reference.prepend (Reference.substitute autoescape context key)
      (Reference.render_from autoescape context None tail).
Proof.
  intros Hk.
  destruct (evaluate_identifier autoescape context key Hk) as (Heval & _ & Hclose).
  change ("{{" +:+ key +:+ "}}" +:+ tail)
    with (String "{" (String "{" (key +:+ "}}" +:+ tail))).
  change (Reference.render_from autoescape context None
            (String "{" (String "{" (key +:+ "}}" +:+ tail))))
    with (Reference.render_from autoescape context (Some EmptyString)
            (key +:+ "}}" +:+ tail)).
  rewrite (render_key autoescape context key tail Hclose), append_empty.
  now rewrite Heval.
Qed.

Lemma render_spaced (autoescape : bool) (context : gmap string string)
    (key tail : string) :
  identifier key = true ->
  Reference.render_from autoescape context None ("{{ " +:+ key +:+ " }}" +:+ tail) =
    Reference.prepend (Reference.substitute autoescape context key)
      (Reference.render_from autoescape context None tail).
Proof.
  intros Hk.
  destruct (evaluate_identifier autoescape context key Hk) as (_ & Heval & Hclose).
  assert (Htext : "{{ " +:+ key +:+ " }}" +:+ tail
                  = "{{" +:+ (" " +:+ key +:+ " ") +:+ "}}" +:+ tail).
  { change ("{{ " +:+ key +:+ " }}" +:+ tail)
      with ("{{" +:+ String " " (key +:+ (" " +:+ "}}" +:+ tail))).
    change ((" " +:+ key +:+ " ") +:+ "}}" +:+ tail)
      with (String " " ((key +:+ " ") +:+ "}}" +:+ tail)).
    now rewrite append_assoc. }
  rewrite Htext.
  change (Reference.render_from autoescape context None
            ("{{" +:+ (" " +:+ key +:+ " ") +:+ "}}" +:+ tail))
    with (Reference.render_from autoescape context (Some EmptyString)
            ((" " +:+ key +:+ " ") +:+ "}}" +:+ tail)).
  rewrite (render_key autoescape context (" " +:+ key +:+ " ") tail), append_empty.
  - now rewrite Heval.
  - rewrite append_cons, append_empty. cbn [Reference.all_chars Ascii.eqb Bool.eqb negb andb].
    clear -Hclose. induction key as [|c key' IH]; [reflexivity|].
    cbn [Reference.all_chars] in *. apply andb_prop in Hclose as [Hc Hrest].
    rewrite append_cons. cbn [Reference.all_chars]. now rewrite Hc, (IH Hrest).
Qed.

(** Without a backslash in the value, the engine's escaping is the
    replacement of the five characters. *)
Lemma html_escape_escaped (v : string) :
  occurrences "092" v = 0 -> Reference.html_escape v = escaped v.
Proof.
  induction v as [|c rest IH]; [reflexivity|]. cbn [occurrences]. intros Hv.
  destruct (Ascii.eqb c "092") eqn:Ec; [discriminate|].
  cbn [Reference.html_escape escaped]. rewrite (IH Hv). unfold entity.
  unfold Reference.dquote, Reference.backslash. now rewrite Ec.
Qed.

(** Rendering a written template fills it in from the context. *)
Lemma render_written (context : gmap string string) (segs : list segment) :
  forallb well_written segs = true ->
  (forall key v, context !! key = Some v -> occurrences "092" v = 0) ->
  Reference.render true (written segs) context
  = Ok (filled (fun key => context !! key) segs).
Proof.
  unfold Reference.render. intros Hsegs Hvalues.
  induction segs as [|seg rest IH]; [reflexivity|].
  cbn [forallb] in Hsegs. apply andb_prop in Hsegs as [Hseg Hrest].
  specialize (IH Hrest).
  destruct seg as [s|key|key]; cbn [written filled well_written] in *.
  - now rewrite render_text, IH.
  - rewrite render_placeholder, IH by assumption. cbn [Reference.prepend].
    unfold Reference.substitute. destruct (context !! key) as [v|] eqn:Ev; [|reflexivity].
    now rewrite (html_escape_escaped v (Hvalues key v Ev)).
  - rewrite render_spaced, IH by assumption. cbn [Reference.prepend].
    unfold Reference.substitute. destruct (context !! key) as [v|] eqn:Ev; [|reflexivity].
    now rewrite (html_escape_escaped v (Hvalues key v Ev)).
Qed.

Lemma filled_ext (f g : string -> option string) (segs : list segment) :
  (forall key, f key = g key) -> filled f segs = filled g segs.
Proof.
  intros Hfg. induction segs as [|[s|key|key] rest IH]; cbn [filled]; [reflexivity|..];
    now rewrite ?Hfg, IH.
Qed.

(** A mapped value is the value of one of the entries. *)
Lemma mapped_value (entries : list string) (key v : string) :
  mapped entries key = Some v -> exists entry, In entry entries /\ v = after_colon entry.
Proof.
  induction entries as [|entry rest IH]; cbn [mapped]; [discriminate|].
  destruct (mapped rest key) as [v'|].
  - intros Hv. destruct (IH Hv) as (e & Hin & He). exists e. split; [now right|exact He].
  - destruct (String.eqb (before_colon entry) key); [|discriminate].
    intros [= <-]. exists entry. split; [now left|reflexivity].
Qed.

(** ** [jobTemplate] *)




(** C2. With the argument string left out or [null], [jobTemplate]
    returns the text as it is and leaves the world as it was: nothing is
    logged and the template engine is neither configured nor asked to
    render, whatever the platform. *)
Theorem jobTemplate_absent_args `{Platform} (text : string) (w : world) :
  jobTemplate text Undefined w = (Ok text, w)
  /\ jobTemplate text Null w = (Ok text, w).
Proof. split; reflexivity. Qed.

(** C3, as stated: [jobTemplate] can fail.  With a placeholder that is
    not closed and the argument string [malformed], the message is
    logged, the engine is asked to render, and [jobTemplate] throws what
    the engine throws. *)
Lemma jobTemplate_fails_with_engine :
  jobTemplate (platform := Reference.node) "{{a" (Given "malformed") (World ∅ ∅ [])
  = (Throw TemplateError,
     World ∅ ∅ [NunjucksConfigure true; ConsoleLog "Arguments input error";
                NunjucksRenderString "{{a" ∅]).
Proof. reflexivity. Qed.

(** C3, amended. Whatever the template, the argument string and the
    engine: the argument string is its entries, one at least, joined by
    semicolons; every entry that does not hold exactly one colon is
    answered by the console message [Arguments input error] and adds
    nothing to the mapping; the loop goes on with the entries after it,
    so that the mapping gives each key the value of the last entry that
    binds it (an entry with one colon binds its key, unless the key is
    [__proto__]); and the outcome of [jobTemplate] is that of the engine
    asked to render the text with this mapping: it throws only what the
    engine throws.  For the argument string [malformed] the engine is
    asked to render with the empty mapping after one message. *)
Theorem jobTemplate_skips_malformed `{Platform} (text args : string) (w : world) :
  (exists (entries : list string) (argsMap : gmap string string),
     args = Reference.join ";" entries
     /\ entries <> []
     /\ Forall (fun entry => occurrences ";" entry = 0) entries
     /\ (forall key, argsMap !! key = mapped (List.filter binds entries) key)
     /\ jobTemplate text (Given args) w =
          (renderString true text argsMap,
           after_events w
             (NunjucksConfigure true
              :: List.map (fun _ => ConsoleLog "Arguments input error")
                   (List.filter (fun entry => negb (one_colon entry)) entries)
              ++ [NunjucksRenderString text argsMap])))
  /\ jobTemplate text (Given "malformed") w =
       (renderString true text ∅,
        after_events w
          [NunjucksConfigure true; ConsoleLog "Arguments input error";
           NunjucksRenderString text ∅]).
Proof.
  split.
  - exists (split ";" args), (collected ∅ (split ";" args)).
    split; [symmetry; apply join_split|]. split.
    { pose proof (split_length ";" args) as Hlen. intros Hnil. now rewrite Hnil in Hlen. }
    split; [apply split_pieces|]. split.
    + intros key. rewrite collected_lookup.
      destruct (mapped _ key); [reflexivity|apply lookup_empty].
    + rewrite jobTemplate_given. do 3 f_equal.
      unfold complaint.
      rewrite (filter_ext malformed (fun entry => negb (one_colon entry)));
        [reflexivity|]. intros entry. apply malformed_one_colon.
  - rewrite jobTemplate_given. reflexivity.
Qed.


(** ** The JSON text of a value reads back as the value *)

Lemma length_append (s t : string) :
  String.length (s +:+ t) = String.length s + String.length t.
Proof. induction s as [|c s' IH]; [reflexivity|]. rewrite append_cons. cbn. now rewrite IH. Qed.

Lemma skip_ws_unspaced (c : ascii) (rest : string) :
  Reference.is_space c = false -> Reference.skip_ws (String c rest) = String c rest.
Proof. intros Hc. cbn [Reference.skip_ws]. now rewrite Hc. Qed.

(** *** Numbers *)

Lemma digit_of_char (d : N) :
  (d < 10)%N -> Reference.digit_of (pretty_N_char d) = Some (Z.of_N d).
Proof.
  intros Hd.
  assert (Hcases : (d = 0 \/ d = 1 \/ d = 2 \/ d = 3 \/ d = 4 \/ d = 5 \/ d = 6
                    \/ d = 7 \/ d = 8 \/ d = 9)%N) by lia.
  repeat (destruct Hcases as [->|Hcases]; [reflexivity|]). now subst d.
Qed.

(** A digit is none of the characters a value of another kind starts
    with, and no blank. *)
Lemma digit_first (c : ascii) (d : Z) :
  Reference.digit_of c = Some d ->
  Reference.is_space c = false
  /\ Ascii.eqb c Reference.dquote = false /\ Ascii.eqb c "[" = false
  /\ Ascii.eqb c "{" = false /\ Ascii.eqb c "-" = false /\ Ascii.eqb c "n" = false
  /\ Ascii.eqb c "t" = false /\ Ascii.eqb c "f" = false
  /\ Ascii.eqb c "]" = false /\ Ascii.eqb c "}" = false.
Proof.
  destruct c as [[] [] [] [] [] [] [] []]; vm_compute; intros Hc;
    first [discriminate Hc | repeat split].
Qed.

Lemma pretty_N_go_append (x : N) :
  forall s t : string, pretty_N_go x s +:+ t = pretty_N_go x (s +:+ t).
Proof.
  induction (N.lt_wf_0 x) as [x _ IH]; intros s t.
  destruct (N.eq_dec x 0%N) as [->|Hx]; [now rewrite !pretty_N_go_0|].
  rewrite (pretty_N_go_step x s), (pretty_N_go_step x (s +:+ t)) by lia.
  rewrite IH by (apply N.div_lt; lia). reflexivity.
Qed.

Lemma pretty_N_go_head (x : N) :
  forall s : string,
    (0 < x)%N ->
    exists c t d, pretty_N_go x s = String c t /\ Reference.digit_of c = Some d.
Proof.
  induction (N.lt_wf_0 x) as [x _ IH]; intros s Hx.
  rewrite pretty_N_go_step by exact Hx.
  destruct (N.eq_dec (x `div` 10)%N 0%N) as [Hz|Hnz].
  - rewrite Hz, pretty_N_go_0. eexists _, _, _. split; [reflexivity|].
    apply digit_of_char. now apply N.mod_lt.
  - apply IH; [apply N.div_lt; lia|].
    destruct (x `div` 10)%N; [now destruct Hnz|reflexivity].
Qed.

(** Reading the digits of [x] continues the number read so far. *)
Lemma parse_digits_pretty (x : N) :
  exists k : nat,
    forall (acc : Z) (s : string),
      Reference.parse_digits acc (pretty_N_go x s)
      = Reference.parse_digits (acc * 10 ^ Z.of_nat k + Z.of_N x)%Z s.
Proof.
  induction (N.lt_wf_0 x) as [x _ IH].
  destruct (N.eq_dec x 0%N) as [->|Hx].
  - exists 0. intros acc s. rewrite pretty_N_go_0. f_equal. cbn. lia.
  - destruct (IH (x `div` 10)%N) as (k & Hk); [apply N.div_lt; lia|].
    exists (S k). intros acc s.
    rewrite pretty_N_go_step by lia. rewrite Hk. cbn [Reference.parse_digits].
    rewrite digit_of_char by (now apply N.mod_lt). f_equal.
    rewrite Nat2Z.inj_succ, Z.pow_succ_r by lia.
    rewrite N2Z.inj_div, N2Z.inj_mod. change (Z.of_N 10) with 10%Z.
    pose proof (Z.div_mod (Z.of_N x) 10 ltac:(lia)) as Hdm.
    remember (Z.of_N x) as X. remember (X / 10)%Z as q. remember (X mod 10)%Z as r.
    remember (10 ^ Z.of_nat k)%Z as P. rewrite Hdm. ring.
Qed.

(** After the digits of a number comes no digit. *)
Lemma parse_digits_end (acc : Z) (s : string) :
  (forall c t, s = String c t -> Reference.digit_of c = None) ->
  Reference.parse_digits acc s = (acc, s).
Proof.
  destruct s as [|c t]; [reflexivity|]. intros Hend.
  cbn [Reference.parse_digits]. now rewrite (Hend c t eq_refl).
Qed.

Lemma parse_number_digits (c : ascii) (t : string) (d : Z) :
  Reference.digit_of c = Some d ->
  Reference.parse_number (String c t) = Some (Reference.parse_digits 0 (String c t)).
Proof.
  intros Hc. cbn [Reference.parse_number Reference.parse_digits]. now rewrite Hc.
Qed.

(** The digits of a positive number, whatever follows that is no digit. *)
Lemma parse_number_pretty (x : N) (rest : string) :
  (0 < x)%N ->
  (forall c t, rest = String c t -> Reference.digit_of c = None) ->
  Reference.parse_number (pretty_N_go x EmptyString +:+ rest) = Some (Z.of_N x, rest).
Proof.
  intros Hx Hend. rewrite pretty_N_go_append, append_empty.
  destruct (pretty_N_go_head x rest Hx) as (c & t & d & Htext & Hc).
  rewrite Htext, (parse_number_digits c t d Hc), <- Htext.
  destruct (parse_digits_pretty x) as (k & Hk). rewrite Hk.
  now rewrite (parse_digits_end _ rest Hend).
Qed.

(** *** Strings *)

Lemma parse_chars_escape_char (c : ascii) (acc tail : string) :
  Reference.parse_chars acc (Reference.escape_char c +:+ tail)
  = Reference.parse_chars (acc +:+ String c EmptyString) tail.
Proof. destruct c as [[] [] [] [] [] [] [] []]; reflexivity. Qed.

Lemma parse_chars_escape (s : string) :
  forall acc rest : string,
    Reference.parse_chars acc
      (Reference.escape_json s +:+ String Reference.dquote rest)
    = Some (acc +:+ s, rest).
Proof.
  induction s as [|c s' IH]; intros acc rest.
  - rewrite append_nil_r. reflexivity.
  - cbn [Reference.escape_json]. rewrite append_assoc, parse_chars_escape_char, IH.
    now rewrite append_assoc.
Qed.

Lemma quoted_append (s rest : string) :
  Reference.quoted s +:+ rest
  = String Reference.dquote (Reference.escape_json s +:+ String Reference.dquote rest).
Proof. unfold Reference.quoted. now rewrite append_cons, append_assoc. Qed.

(** *** Values *)

Lemma prefix_append (kw rest : string) : String.prefix kw (kw +:+ rest) = true.
Proof.
  induction kw as [|c kw' IH]; [now destruct rest|].
  rewrite append_cons. cbn [String.prefix].
  destruct (ascii_dec c c) as [_|Hne]; [exact IH|now destruct Hne].
Qed.

Lemma substring_whole (s : string) : String.substring 0 (String.length s) s = s.
Proof. induction s as [|c s' IH]; [reflexivity|]. cbn. now rewrite IH. Qed.

Lemma substring_append (kw rest : string) :
  String.substring (String.length kw) (String.length (kw +:+ rest) - String.length kw)
    (kw +:+ rest) = rest.
Proof.
  rewrite length_append.
  replace (String.length kw + String.length rest - String.length kw)
    with (String.length rest) by lia.
  induction kw as [|c kw' IH]; [apply substring_whole|exact IH].
Qed.

Lemma keyword_reads (kw : string) (v : value) (rest : string) :
  Reference.keyword kw v (kw +:+ rest) = Some (v, rest).
Proof.
  unfold Reference.keyword. now rewrite prefix_append, substring_append.
Qed.

Lemma pretty_pos (p : positive) : pretty (Z.pos p) = pretty_N_go (N.pos p) EmptyString.
Proof. reflexivity. Qed.

Lemma pretty_neg (p : positive) :
  pretty (Z.neg p) = "-" +:+ pretty_N_go (N.pos p) EmptyString.
Proof. reflexivity. Qed.

(** The text of a value starts with a character that is no blank and
    closes neither an array nor an object. *)
Lemma stringify_head (v : value) :
  exists c t,
    Reference.stringify v = String c t /\ Reference.is_space c = false
    /\ Ascii.eqb c "]" = false /\ Ascii.eqb c "}" = false.
Proof.
  destruct v as [|[]|[|p|p]|s|items|props]; cbn [Reference.stringify];
    try (eexists _, _; repeat split; reflexivity).
  rewrite pretty_pos.
  destruct (pretty_N_go_head (N.pos p) EmptyString eq_refl) as (c & t & d & -> & Hc).
  destruct (digit_first c d Hc) as (Hs & _ & _ & _ & _ & _ & _ & _ & Hb & Hcl).
  now exists c, t.
Qed.

Lemma stringify_length (v : value) : 1 <= String.length (Reference.stringify v).
Proof.
  destruct (stringify_head v) as (c & t & -> & _). cbn. lia.
Qed.

Local Abbreviation ends rest :=
  (forall c t, rest = String c t -> Reference.digit_of c = None).

Local Abbreviation reads_back v :=
  (forall fuel rest,
      String.length (Reference.stringify v) <= fuel -> ends rest ->
      Reference.parse_value fuel (Reference.stringify v +:+ rest) = Some (v, rest)).

Lemma join_more (text : string) (texts : list string) :
  Reference.join "," (text :: texts)
  = text +:+ fold_right (fun t rest => "," +:+ t +:+ rest) EmptyString texts.
Proof.
  revert text. induction texts as [|next texts' IH]; intros text.
  - cbn. now rewrite append_nil_r.
  - change (Reference.join "," (text :: next :: texts'))
      with (text +:+ "," +:+ Reference.join "," (next :: texts')).
    now rewrite IH.
Qed.

Lemma join_items (v : value) (items : list value) :
  Reference.join "," (List.map Reference.stringify (v :: items))
  = Reference.stringify v +:+ more_items items.
Proof.
  cbn [List.map]. rewrite join_more. f_equal. unfold more_items.
  induction items as [|v' items' IH]; [reflexivity|]. cbn [List.map fold_right].
  now rewrite IH.
Qed.

Lemma join_members (kv : string * value) (props : list (string * value)) :
  Reference.join ","
    (List.map (fun kv => Reference.quoted (fst kv) +:+ ":" +:+ Reference.stringify (snd kv))
       (kv :: props))
  = member_text kv +:+ more_members props.
Proof.
  cbn [List.map]. rewrite join_more. f_equal. unfold more_members.
  induction props as [|kv' props' IH]; [reflexivity|]. cbn [List.map fold_right].
  now rewrite IH.
Qed.

Lemma ends_more_items (items : list value) (rest : string) :
  ends (more_items items +:+ String "]" rest).
Proof. destruct items; intros c t [= <- _]; reflexivity. Qed.

Lemma ends_more_members (props : list (string * value)) (rest : string) :
  ends (more_members props +:+ String "}" rest).
Proof. destruct props; intros c t [= <- _]; reflexivity. Qed.

Lemma parse_items_more (items : list value) :
  Forall (fun v => reads_back v) items ->
  forall fuel rest,
    String.length (more_items items) + 1 <= fuel ->
    Reference.parse_items fuel (more_items items +:+ String "]" rest)
    = Some (items, rest).
Proof.
  induction 1 as [|v items Hv _ IH]; intros fuel rest Hfuel.
  - destruct fuel as [|fuel']; [cbn in Hfuel; lia|]. reflexivity.
  - destruct fuel as [|fuel']; [lia|].
    change (more_items (v :: items))
      with ("," +:+ Reference.stringify v +:+ more_items items) in *.
    rewrite !append_cons, append_empty in Hfuel. cbn [String.length] in Hfuel.
    rewrite length_append in Hfuel.
    rewrite !append_cons, append_empty, append_assoc.
    cbn [Reference.parse_items Reference.skip_ws Reference.is_space Reference.after
         Ascii.eqb Bool.eqb orb].
    rewrite Hv by (first [lia | apply ends_more_items]).
    cbn [mbind option_bind]. rewrite IH by lia. reflexivity.
Qed.

Lemma parse_member_text (kv : string * value) :
  reads_back (snd kv) ->
  forall fuel rest,
    String.length (member_text kv) <= fuel -> ends rest ->
    Reference.parse_member fuel (member_text kv +:+ rest) = Some (kv, rest).
Proof.
  destruct kv as [k v]. unfold member_text. cbn [fst snd]. intros Hv fuel rest Hfuel Hend.
  destruct fuel as [|fuel']; [rewrite length_append in Hfuel; cbn in Hfuel; lia|].
  rewrite !length_append in Hfuel. unfold Reference.quoted in Hfuel at 1.
  cbn [String.length] in Hfuel.
  rewrite append_assoc, quoted_append.
  cbn [Reference.parse_member Reference.skip_ws Reference.is_space Reference.after
       Reference.dquote Ascii.eqb Bool.eqb orb].
  fold Reference.dquote. rewrite parse_chars_escape, append_empty.
  cbn [mbind option_bind]. rewrite !append_cons, append_empty.
  cbn [Reference.skip_ws Reference.is_space Reference.after Ascii.eqb Bool.eqb orb].
  rewrite Hv by (first [lia | exact Hend]). reflexivity.
Qed.

Lemma parse_members_more (props : list (string * value)) :
  Forall (fun kv => reads_back (snd kv)) props ->
  forall fuel rest,
    String.length (more_members props) + 1 <= fuel ->
    Reference.parse_members fuel (more_members props +:+ String "}" rest)
    = Some (props, rest).
Proof.
  induction 1 as [|kv props Hkv _ IH]; intros fuel rest Hfuel.
  - destruct fuel as [|fuel']; [cbn in Hfuel; lia|]. reflexivity.
  - destruct fuel as [|fuel']; [lia|].
    change (more_members (kv :: props))
      with ("," +:+ member_text kv +:+ more_members props) in *.
    rewrite !append_cons, append_empty in Hfuel. cbn [String.length] in Hfuel.
    rewrite length_append in Hfuel.
    rewrite !append_cons, append_empty, append_assoc.
    cbn [Reference.parse_members Reference.skip_ws Reference.is_space Reference.after
         Ascii.eqb Bool.eqb orb].
    rewrite (parse_member_text kv Hkv) by (first [lia | apply ends_more_members]).
    cbn [mbind option_bind]. rewrite IH by lia. reflexivity.
Qed.

Lemma value_nested_ind (P : value -> Prop) :
  P JNull -> (forall b, P (JBool b)) -> (forall n, P (JNum n)) ->
  (forall s, P (JStr s)) ->
  (forall items, Forall P items -> P (JArr items)) ->
  (forall props, Forall (fun kv => P (snd kv)) props -> P (JObj props)) ->
  forall v, P v.
Proof.
  intros Hnull Hbool Hnum Hstr Harr Hobj. fix IH 1.
  intros [|b|n|s|items|props].
  - exact Hnull.
  - apply Hbool.
  - apply Hnum.
  - apply Hstr.
  - apply Harr. induction items as [|v items IHitems]; constructor;
      [apply IH|exact IHitems].
  - apply Hobj. induction props as [|[k v] props IHprops]; constructor;
      [apply IH|exact IHprops].
Qed.

(** The reader gives back the value whose text it reads, whatever
    follows the text that is no digit. *)
Lemma parse_value_stringify (v : value) : reads_back v.
Proof.
  induction v as [|b|n|s|items Hitems|props Hprops] using value_nested_ind;
    intros fuel rest Hfuel Hend;
    match goal with
    | H : String.length (Reference.stringify ?v) <= _ |- _ =>
        pose proof (stringify_length v) as Hlength
    end;
    (destruct fuel as [|fuel']; [lia|]); clear Hlength.
  - exact (keyword_reads "null" JNull rest).
  - destruct b; [exact (keyword_reads "true" (JBool true) rest)
                |exact (keyword_reads "false" (JBool false) rest)].
  - cbn [Reference.stringify]. destruct n as [|p|p].
    + cbn [pretty pretty_Z]. rewrite append_cons, append_empty.
      cbn [Reference.parse_value Reference.skip_ws Reference.is_space Ascii.eqb Bool.eqb
           orb Reference.dquote Reference.parse_number Reference.digit_of].
      change (Reference.digit_of "0") with (Some 0%Z). cbv beta iota.
      now rewrite (parse_digits_end _ rest Hend).
    + rewrite pretty_pos.
      pose proof (parse_number_pretty (N.pos p) rest eq_refl Hend) as Hnumber.
      rewrite pretty_N_go_append, append_empty in *.
      destruct (pretty_N_go_head (N.pos p) rest eq_refl) as (c & t & d & Htext & Hc).
      rewrite Htext in *.
      destruct (digit_first c d Hc) as (Hs & H1 & H2 & H3 & H4 & H5 & H6 & H7 & _).
      cbn [Reference.parse_value]. rewrite (skip_ws_unspaced c t Hs).
      rewrite H1, H2, H3, H4, H5, H6, H7, Hnumber. reflexivity.
    + rewrite pretty_neg, !append_cons, append_empty.
      cbn [Reference.parse_value Reference.skip_ws Reference.is_space Ascii.eqb Bool.eqb
           orb Reference.dquote].
      now rewrite (parse_number_pretty (N.pos p) rest eq_refl Hend).
  - cbn [Reference.stringify]. rewrite quoted_append.
    cbn [Reference.parse_value Reference.skip_ws Reference.is_space Ascii.eqb Bool.eqb
         orb Reference.dquote].
    fold Reference.dquote. now rewrite parse_chars_escape.
  - cbn [Reference.stringify] in *. destruct items as [|v items].
    + reflexivity.
    + rewrite join_items in *. rewrite !append_cons, append_empty in Hfuel.
      cbn [String.length] in Hfuel. rewrite !length_append in Hfuel.
      cbn [String.length] in Hfuel.
      rewrite !append_cons, append_empty, !append_assoc, append_cons, append_empty.
      inversion Hitems as [|? ? Hv Hrest]; subst.
      destruct (stringify_head v) as (c & t & Htext & Hs & Hclose & _).
      cbn [Reference.parse_value Reference.skip_ws Reference.is_space Ascii.eqb Bool.eqb
           orb Reference.dquote].
      rewrite Htext at 1. rewrite append_cons, (skip_ws_unspaced c _ Hs).
      cbn [Reference.after]. rewrite Hclose.
      rewrite Hv by (first [lia | apply ends_more_items]).
      cbn [mbind option_bind].
      rewrite (parse_items_more items Hrest) by lia. reflexivity.
  - cbn [Reference.stringify] in *. destruct props as [|kv props].
    + reflexivity.
    + rewrite join_members in *. rewrite !append_cons, append_empty in Hfuel.
      cbn [String.length] in Hfuel. rewrite !length_append in Hfuel.
      cbn [String.length] in Hfuel.
      rewrite !append_cons, append_empty, !append_assoc, append_cons, append_empty.
      inversion Hprops as [|? ? Hkv Hrest]; subst.
      cbn [Reference.parse_value Reference.skip_ws Reference.is_space Ascii.eqb Bool.eqb
           orb Reference.dquote].
      assert (Hopen : Reference.after "}"
                        (Reference.skip_ws
                           (member_text kv +:+ more_members props +:+ String "}" rest))
                      = None).
      { unfold member_text. rewrite !append_assoc, quoted_append. reflexivity. }
      rewrite Hopen.
      rewrite (parse_member_text kv Hkv) by (first [lia | apply ends_more_members]).
      cbn [mbind option_bind].
      rewrite (parse_members_more props Hrest) by lia. reflexivity.
Qed.

(** The text [fs.writeJSON] writes for a value reads back as the
    value. *)
Lemma parse_file_text (v : value) : Reference.parse (Reference.file_text v) = Some v.
Proof.
  unfold Reference.parse, Reference.file_text.
  rewrite parse_value_stringify; [reflexivity| |].
  - rewrite length_append. lia.
  - intros c t [= <- _]. reflexivity.
Qed.

(** ** Paths *)

Lemma occurrences_append (c : ascii) (s t : string) :
  occurrences c (s +:+ t) = occurrences c s + occurrences c t.
Proof.
  induction s as [|c' s' IH]; [reflexivity|].
  rewrite append_cons. cbn [occurrences]. rewrite IH. lia.
Qed.

Lemma proper_spec (name : string) :
  proper name = true ->
  name <> EmptyString /\ occurrences "/" name = 0 /\ name <> "."%string.
Proof.
  unfold proper. intros Hp. bools.
  repeat split; try (now apply String.eqb_neq); now apply Nat.eqb_eq.
Qed.

Lemma join_snoc (sep : string) (l : list string) (x : string) :
  l <> [] -> Reference.join sep (l ++ [x]) = Reference.join sep l +:+ sep +:+ x.
Proof.
  induction l as [|y l' IH]; [congruence|]. intros _.
  destruct l' as [|z l''].
  - reflexivity.
  - change (Reference.join sep ((y :: z :: l'') ++ [x]))
      with (y +:+ sep +:+ Reference.join sep ((z :: l'') ++ [x])).
    rewrite IH by discriminate.
    change (Reference.join sep (y :: z :: l''))
      with (y +:+ sep +:+ Reference.join sep (z :: l'')).
    now rewrite !append_assoc.
Qed.

(** The names joined start with the first character of the first. *)
Lemma join_head (l : list string) (c : ascii) (t : string) :
  exists t', Reference.join "/" (String c t :: l) = String c t'.
Proof.
  destruct l as [|y l']; [now exists t|].
  change (Reference.join "/" (String c t :: y :: l'))
    with (String c t +:+ "/" +:+ Reference.join "/" (y :: l')).
  rewrite append_cons. now eexists.
Qed.

Lemma join_length (l : list string) :
  Forall (fun name => proper name = true) l ->
  length l <= String.length (Reference.join "/" l).
Proof.
  induction 1 as [|x l Hx Hl IH]; [cbn; lia|].
  destruct (proper_spec x Hx) as (Hne & _).
  assert (1 <= String.length x) by (destruct x; [congruence|cbn; lia]).
  destruct l as [|y l']; [cbn [Reference.join length]; lia|].
  change (Reference.join "/" (x :: y :: l'))
    with (x +:+ "/" +:+ Reference.join "/" (y :: l')).
  rewrite !length_append. cbn [length] in *. lia.
Qed.

Lemma place_length (b : base) (l : list string) :
  Forall (fun name => proper name = true) l ->
  length l <= String.length (place b l).
Proof.
  intros Hl. pose proof (join_length l Hl).
  destruct b, l as [|x l']; cbn [place length] in *; try lia;
    rewrite ?append_cons, ?append_empty; cbn [String.length]; lia.
Qed.

(** The names of a path written in the normal way are the names it was
    written from. *)
Lemma names_of_place (b : base) (l : list string) :
  Forall (fun name => proper name = true) l -> names_of b (place b l) = l.
Proof.
  intros Hl.
  assert (Hsplit : l <> [] -> split "/" (Reference.join "/" l) = l).
  { intros Hne. apply split_join; [exact Hne|].
    eapply Forall_impl; [exact Hl|]. intros x Hx. now apply proper_spec. }
  destruct l as [|x l']; [now destruct b|].
  specialize (Hsplit ltac:(discriminate)).
  inversion Hl as [|? ? Hx Hl']; subst.
  destruct (proper_spec x Hx) as (Hne & Hslash & Hdot).
  destruct x as [|c t]; [congruence|].
  destruct (join_head l' c t) as (t' & Hjoin).
  destruct b; cbn [place names_of].
  - rewrite append_cons, append_empty, Hjoin, <- Hjoin. exact Hsplit.
  - destruct (String.eqb_spec (Reference.join "/" (String c t :: l')) ".") as [Heq|_];
      [|exact Hsplit].
    destruct l' as [|y l''].
    + cbn [Reference.join] in Heq. congruence.
    + change (Reference.join "/" (String c t :: y :: l''))
        with (String c t +:+ "/" +:+ Reference.join "/" (y :: l'')) in Heq.
      apply (f_equal (occurrences "/")) in Heq.
      rewrite !occurrences_append in Heq. cbn in Heq. lia.
Qed.

Lemma place_inj (b : base) (l l' : list string) :
  Forall (fun name => proper name = true) l ->
  Forall (fun name => proper name = true) l' ->
  place b l = place b l' -> l = l'.
Proof.
  intros Hl Hl' Heq.
  rewrite <- (names_of_place b l Hl), <- (names_of_place b l' Hl'). now rewrite Heq.
Qed.

Lemma placed_place (b : base) (l : list string) :
  Forall (fun name => proper name = true) l -> placed b (place b l) = true.
Proof.
  intros Hl. unfold placed. rewrite (names_of_place b l Hl), String.eqb_refl.
  rewrite andb_true_r. apply forallb_forall. intros x Hx.
  rewrite List.Forall_forall in Hl. now apply Hl.
Qed.

(** *** [path.dirname] on paths written in the normal way *)

Lemma unslashed_chars (name : string) :
  occurrences "/" name = 0 ->
  Forall (fun c => Reference.is_slash c = false) (list_ascii_of_string name).
Proof.
  induction name as [|c t IH]; cbn [occurrences list_ascii_of_string]; intros Hn;
    [constructor|].
  destruct (Ascii.eqb c "/") eqn:Ec; [discriminate|].
  constructor; [exact Ec|now apply IH].
Qed.

Lemma drop_while_all (p : ascii -> bool) (l l' : list ascii) :
  Forall (fun c => p c = true) l ->
  Reference.drop_while p (l ++ l') = Reference.drop_while p l'.
Proof.
  induction 1 as [|c l Hc _ IH]; [reflexivity|].
  cbn [app Reference.drop_while]. now rewrite Hc.
Qed.

(** A path of one name: its directory is the root or the working
    directory. *)
Lemma dirname_single (c0 : ascii) (name : string) :
  occurrences "/" name = 0 ->
  Reference.posix_dirname (String c0 name) = if Reference.is_slash c0 then "/" else ".".
Proof.
  intros Hn. pose proof (unslashed_chars name Hn) as Hchars.
  apply List.Forall_rev in Hchars.
  unfold Reference.posix_dirname.
  rewrite (drop_while_none Reference.is_slash _ Hchars).
  rewrite <- (app_nil_r (rev (list_ascii_of_string name))).
  rewrite drop_while_all; [reflexivity|].
  eapply Forall_impl; [exact Hchars|]. intros c Hc. cbv beta. now rewrite Hc.
Qed.

(** A path that ends in a separator and a name: its directory is what
    stands before the separator. *)
Lemma dirname_under (c0 : ascii) (dir name : string) :
  name <> EmptyString -> occurrences "/" name = 0 ->
  Reference.posix_dirname (String c0 (dir +:+ "/" +:+ name))
  = match dir with
    | EmptyString => if Reference.is_slash c0 then "//" else String c0 EmptyString
    | String _ _ => String c0 dir
    end.
Proof.
  intros Hne Hn. pose proof (unslashed_chars name Hn) as Hchars.
  apply List.Forall_rev in Hchars.
  unfold Reference.posix_dirname.
  rewrite !list_ascii_append. cbn [list_ascii_of_string app].
  rewrite rev_app_distr. cbn [rev]. rewrite <- !app_assoc. cbn [app].
  assert (Hfirst : Reference.drop_while Reference.is_slash
                     (rev (list_ascii_of_string name)
                      ++ "/"%char :: rev (list_ascii_of_string dir))
                   = rev (list_ascii_of_string name)
                     ++ "/"%char :: rev (list_ascii_of_string dir)).
  { destruct (rev (list_ascii_of_string name)) as [|c l] eqn:E.
    - apply (f_equal (@rev ascii)) in E. rewrite rev_involutive in E. cbn in E.
      destruct name; [congruence|discriminate].
    - inversion Hchars as [|? ? Hc _]; subst. cbn [app Reference.drop_while].
      now rewrite Hc. }
  rewrite Hfirst. rewrite drop_while_all.
  2:{ eapply Forall_impl; [exact Hchars|]. intros c Hc. cbv beta. now rewrite Hc. }
  cbn [Reference.drop_while Reference.is_slash Ascii.eqb Bool.eqb negb].
  destruct dir as [|c dir']; [reflexivity|].
  destruct (rev (list_ascii_of_string (String c dir'))) as [|c' l'] eqn:E.
  - apply (f_equal (@rev ascii)) in E. rewrite rev_involutive in E. discriminate.
  - rewrite <- E, rev_involutive, string_of_list_ascii_of_string. reflexivity.
Qed.

(** The directory of a path written in the normal way is the path of
    the names before the last. *)
Lemma dirname_place (b : base) (folders : list string) (name : string) :
  Forall (fun name => proper name = true) folders -> proper name = true ->
  Reference.posix_dirname (place b (folders ++ [name])) = place b folders.
Proof.
  intros Hfolders Hname. destruct (proper_spec name Hname) as (Hne & Hslash & Hdot).
  destruct folders as [|x folders'].
  - destruct b; cbn [app place Reference.join].
    + rewrite append_cons, append_empty. now rewrite dirname_single.
    + destruct name as [|c t]; [congruence|].
      cbn [occurrences] in Hslash.
      destruct (Ascii.eqb c "/") eqn:Ec; [discriminate|].
      rewrite dirname_single by lia. unfold Reference.is_slash. now rewrite Ec.
  - inversion Hfolders as [|? ? Hx _]; subst.
    destruct (proper_spec x Hx) as (Hxne & Hxslash & _).
    destruct x as [|c t]; [congruence|].
    assert (Hc : Reference.is_slash c = false).
    { cbn [occurrences] in Hxslash. unfold Reference.is_slash.
      destruct (Ascii.eqb c "/"); [discriminate|reflexivity]. }
    destruct (join_head folders' c t) as (t' & Hjoin).
    destruct b.
    + cbn [place].
      rewrite (join_snoc "/" (String c t :: folders') name) by discriminate.
      rewrite Hjoin.
      change ("/" +:+ (String c t' +:+ "/" +:+ name))
        with (String "/" (String c t' +:+ "/" +:+ name)).
      now rewrite dirname_under.
    + change (place Here ((String c t :: folders') ++ [name]))
        with (Reference.join "/" ((String c t :: folders') ++ [name])).
      change (place Here (String c t :: folders'))
        with (Reference.join "/" (String c t :: folders')).
      rewrite (join_snoc "/" (String c t :: folders') name) by discriminate.
      rewrite Hjoin, append_cons, dirname_under by assumption.
      destruct t'; [now rewrite Hc|reflexivity].
Qed.
(** ** [readJson] and [writeJson] *)

(** C4. When reading or parsing the file at the path throws [e], as it
    does with [ENOENT] for a path without a file and with [SyntaxError]
    for a text that is no JSON, [readJson] warns with the message of [e]
    and then returns the fallback as it is, if one was passed, that is a
    value other than [undefined] and [null]; without one it throws the
    error made from [e].  When the file holds the JSON text of a value,
    [readJson] returns that value whatever the fallback. *)
Theorem readJson_fallback `{Platform} (pth : string) (val : option value) (w : world) :
  (forall e fallback,
     fs_readJson pth w = (Throw e, w) ->
     val = Some fallback -> value_is_null fallback = false ->
     readJson pth val w = (Ok fallback, after_events w [ConsoleWarn (message e)]))
  /\ (forall e,
        fs_readJson pth w = (Throw e, w) -> eq_null value_is_null val = true ->
        readJson pth val w = (Throw (Error e), after_events w [ConsoleWarn (message e)]))
  /\ (forall text data,
        files w !! pth = Some text -> JSON_parse text = Some data ->
        readJson pth val w =
          (Ok data, after_events w [UtilDebug ("data loaded from " +:+ pth) (Some data)]))
  /\ (files w !! pth = None -> fs_readJson pth w = (Throw (ENOENT pth), w))
  /\ (forall text,
        files w !! pth = Some text -> JSON_parse text = None ->
        fs_readJson pth w = (Throw (SyntaxError pth), w)).
Proof.
  repeat split.
  - intros e fallback Hread -> Hnull.
    unfold readJson, try_catch, bind at 1. rewrite Hread.
    unfold bind, log. cbn [eq_null]. rewrite Hnull. reflexivity.
  - intros e Hread Hval.
    unfold readJson, try_catch, bind at 1. rewrite Hread.
    unfold bind, log. rewrite Hval. reflexivity.
  - intros text data Hfile Hparse.
    unfold readJson, try_catch, bind at 1, fs_readJson. rewrite Hfile, Hparse.
    reflexivity.
  - intros Hfile. unfold fs_readJson. now rewrite Hfile.
  - intros text Hfile Hparse. unfold fs_readJson. now rewrite Hfile, Hparse.
Qed.

Lemma readJson_fallback_witness :
  fst (readJson (platform := Reference.node) "/cfg/missing.json" (Some sample_fallback)
         sample_world) = Ok sample_fallback
  /\ fst (readJson (platform := Reference.node) "/cfg/broken.json" (Some sample_fallback)
            sample_world) = Ok sample_fallback
  /\ fst (readJson (platform := Reference.node) "/cfg/missing.json" None
            sample_world) = Throw (Error (ENOENT "/cfg/missing.json"))
  /\ fst (readJson (platform := Reference.node) "/cfg/job.json" (Some sample_fallback)
            sample_world) = Ok sample_value.
Proof.
  split; [|split; [|split]].
  - destruct (readJson_fallback (H := Reference.node) "/cfg/missing.json"
                (Some sample_fallback) sample_world) as (Hgiven & _).
    exact (f_equal fst (Hgiven (ENOENT "/cfg/missing.json") sample_fallback
                          eq_refl eq_refl eq_refl)).
  - destruct (readJson_fallback (H := Reference.node) "/cfg/broken.json"
                (Some sample_fallback) sample_world) as (Hgiven & _).
    exact (f_equal fst (Hgiven (SyntaxError "/cfg/broken.json") sample_fallback
                          eq_refl eq_refl eq_refl)).
  - destruct (readJson_fallback (H := Reference.node) "/cfg/missing.json"
                None sample_world) as (_ & Habsent & _).
    exact (f_equal fst (Habsent (ENOENT "/cfg/missing.json") eq_refl eq_refl)).
  - destruct (readJson_fallback (H := Reference.node) "/cfg/job.json"
                (Some sample_fallback) sample_world) as (_ & _ & Hvalid & _).
    exact (f_equal fst (Hvalid (Reference.stringify sample_value) sample_value
                          eq_refl eq_refl)).
Defined.

Lemma upwards_self `{Platform} (fuel : nat) (d : string) : d ∈ upwards fuel d.
Proof.
  destruct fuel as [|fuel']; cbn [upwards]; [apply list_elem_of_here|].
  destruct (String.eqb (dirname d) d); apply list_elem_of_here.
Qed.

(** What [writeJson] does, in one step. *)
Lemma writeJson_run `{Platform} (pth : string) (val : value) (w : world) :
  writeJson pth val w =
    (Ok tt,
     World (dirs w ∪ list_to_set (upwards (String.length (dirname pth)) (dirname pth)))
           (<[pth := JSON_stringify val]> (files w))
           (trace w ++ [UtilDebug ("saved to " +:+ pth) None])).
Proof.
  unfold writeJson, bind, fs_ensureDir, fs_writeJSON, log, emit. cbn [dirs files trace].
  destruct (decide (dirname pth ∈
                    dirs w ∪ list_to_set (upwards (String.length (dirname pth))
                                            (dirname pth)))) as [_|Hno];
    [reflexivity|].
  destruct Hno. apply elem_of_union_r, elem_of_list_to_set, upwards_self.
Qed.

(** *** The directories [fs.ensureDir] makes *)

Lemma ancestors_snoc (b : base) (folders : list string) (name : string) :
  ancestors b (folders ++ [name])
  = ancestors b folders ++ [place b (folders ++ [name])].
Proof.
  unfold ancestors. rewrite length_app. cbn [length].
  replace (S (length folders + 1)) with (S (S (length folders))) by lia.
  rewrite (seq_S (S (length folders))), List.map_app. cbn [List.map Nat.add].
  f_equal.
  - apply List.map_ext_in. intros k Hk. apply in_seq in Hk.
    f_equal. apply take_app_le. lia.
  - do 2 f_equal. rewrite take_ge; [reflexivity|]. rewrite length_app. cbn. lia.
Qed.

(** Going up from a directory written in the normal way passes the
    directory of every name on the way and ends at the base. *)
Lemma upwards_place (b : base) (folders : list string) :
  Forall (fun name => proper name = true) folders ->
  forall fuel, length folders <= fuel ->
    upwards (platform := Reference.node) fuel (place b folders)
    = rev (ancestors b folders).
Proof.
  induction folders as [|name init IH] using rev_ind; intros Hproper fuel Hfuel.
  - destruct b, fuel; reflexivity.
  - apply Forall_app in Hproper as [Hinit Hname].
    apply Forall_inv in Hname.
    rewrite length_app in Hfuel. cbn [length] in Hfuel.
    destruct fuel as [|fuel']; [lia|].
    rewrite ancestors_snoc, rev_unit. cbn [upwards].
    change (dirname (place b (init ++ [name])))
      with (Reference.posix_dirname (place b (init ++ [name]))).
    rewrite (dirname_place b init name Hinit Hname).
    destruct (String.eqb_spec (place b init) (place b (init ++ [name]))) as [Heq|_].
    + apply place_inj in Heq; [|exact Hinit|apply Forall_app; split; [exact Hinit|]].
      * apply (f_equal (@length string)) in Heq. rewrite length_app in Heq.
        cbn in Heq. lia.
      * now constructor.
    + f_equal. apply IH; [exact Hinit|lia].
Qed.

Lemma list_to_set_rev (l : list string) :
  @eq (gset string) (list_to_set (rev l)) (list_to_set l).
Proof.
  apply set_eq. intros x. rewrite !elem_of_list_to_set, !list_elem_of_In.
  symmetry. apply in_rev.
Qed.

(** *** Stores *)

Lemma store_ok_spec (b : base) (w : world) :
  store_ok b w = true <->
  (forall d, d ∈ dirs w -> placed b d = true /\ files w !! d = None)
  /\ (forall p text, files w !! p = Some text -> placed b p = true).
Proof.
  unfold store_ok. rewrite andb_true_iff, !forallb_forall. split.
  - intros [Hdirs Hfiles]. split.
    + intros d Hd. apply elem_of_elements, list_elem_of_In in Hd.
      specialize (Hdirs d Hd). apply andb_prop in Hdirs as [Hp Hf].
      split; [exact Hp|]. now apply bool_decide_eq_true in Hf.
    + intros p text Hp. apply Hfiles. apply in_map_iff. exists (p, text).
      split; [reflexivity|]. now apply list_elem_of_In, elem_of_map_to_list.
  - intros [Hdirs Hfiles]. split.
    + intros d Hd. apply list_elem_of_In, elem_of_elements in Hd.
      destruct (Hdirs d Hd) as [Hp Hf]. rewrite Hp. now apply bool_decide_eq_true.
    + intros p Hp. apply in_map_iff in Hp as ([p' text] & <- & Hin).
      apply list_elem_of_In, elem_of_map_to_list in Hin. exact (Hfiles p' text Hin).
Qed.

Lemma accepts_spec (w : world) (b : base) (folders : list string) (name : string) :
  accepts w b folders name = true ->
  Forall (fun n => proper n = true) folders /\ proper name = true
  /\ (place b (folders ++ [name]) ∉ dirs w)
  /\ (forall d, In d (ancestors b folders) -> files w !! d = None).
Proof.
  unfold accepts. intros Ha. apply andb_prop in Ha as [Ha Hfree].
  apply andb_prop in Ha as [Hproper Hnodir].
  apply forallb_Forall_true, Forall_app in Hproper as [Hfolders Hname].
  apply Forall_inv in Hname. apply bool_decide_eq_true in Hnodir.
  repeat split; try assumption.
  intros d Hd. rewrite forallb_forall in Hfree.
  specialize (Hfree d Hd). now apply bool_decide_eq_true in Hfree.
Qed.

(** A directory above a file is not the file. *)
Lemma ancestor_not_file (b : base) (folders : list string) (name d : string) :
  Forall (fun n => proper n = true) folders -> proper name = true ->
  In d (ancestors b folders) ->
  placed b d = true /\ d <> place b (folders ++ [name]).
Proof.
  intros Hfolders Hname Hd. unfold ancestors in Hd.
  apply in_map_iff in Hd as (k & <- & Hk).
  assert (Htake : Forall (fun n => proper n = true) (take k folders))
    by now apply Forall_take.
  split; [now apply placed_place|]. intros Heq.
  apply place_inj in Heq; [|exact Htake|apply Forall_app; split; [exact Hfolders|]].
  - apply (f_equal (@length string)) in Heq. rewrite length_take, length_app in Heq.
    cbn in Heq. lia.
  - now constructor.
Qed.



End UtilsFacts.


(* ================================================================== *)
(** * Properties of the table of [apiTestCases.ts] *)
(* ================================================================== *)

Module TableFacts.
Import JS ApiTestCases TableSpec.

(** ** The entry for basic login *)

(** C6, as stated: the expected responses are not at the level of the
    variants.  In the table they are nested inside [operation]. *)
Lemma login_responses_not_variant_level :
  ~ login_entry sample_cluster variant_level
      (table sample_cluster sample_config sample_heap).
Proof.
  intros (entry & correct & nouser & badpassword & Hentry & Htests & _ & _ & _ & _
          & Hnouser & _).
  vm_compute in Hentry. injection Hentry as <-.
  vm_compute in Htests. injection Htests as _ <- _.
  vm_compute in Hnouser. discriminate Hnouser.
Qed.

(** C6, amended: the entry for basic login has exactly three variants:
    the cluster's own user name and password, with no response
    overridden and a teardown that deletes the token of its result; the
    user name [nonexistentuser], whose operation expects status 400 with
    the body of [NoUserError]; and the cluster's user name with the
    password [incorrectpassword], whose operation expects status 400 with
    the body of [IncorrectPasswordError].  The expected responses are
    properties of the operations; no variant has one of its own. *)
Theorem login_responses_operation_level
    (c : ClusterDescriptor) (cfg : value) (h : heap) :
  login_entry c operation_level (table c cfg h)
  /\ exists entry : value,
       field "post /api/v2/authn/basic/login" (table c cfg h) = Some entry
       /\ Forall (fun variant => variant_level variant = None) (tests entry).
Proof.
  unfold login_entry, table, ApiDefaultTestCases, bind, ret.
  destruct (job_entries c cfg h) as [jobs h'].
  cbn [fst field lookup_prop static_entries app String.eqb Ascii.eqb Bool.eqb].
  split.
  - do 4 eexists. split; [reflexivity|].
    repeat split; reflexivity.
  - eexists. split; [reflexivity|].
    repeat constructor.
Qed.

(** The table is the static entries followed by six entries about jobs,
    whatever the fixture, the job configuration and the heap. *)
Lemma table_shape (c : ClusterDescriptor) (cfg : value) (h : heap) :
  table c cfg h = JObj (static_entries c ++ fst (job_entries c cfg h)).
Proof.
  unfold table, ApiDefaultTestCases, bind, ret.
  now destruct (job_entries c cfg h).
Qed.

(** ** Creating the same user twice *)

(** C7. The entry for creating a user has, as its first two variants,
    the operation [createTestUser], which is [createUser] for the user
    name [sdk_test_user], and the same operation again, with the same
    tag, operation and parameters, expecting status 409. *)
Theorem create_user_twice (c : ClusterDescriptor) (cfg : value) (h : heap) :
  exists (entry first second again : value) (others : list value),
    field "post /api/v2/users" (table c cfg h) = Some entry
    /\ tests entry = first :: second :: others
    /\ field "operation" first = Some createTestUser
    /\ field "operationId" createTestUser = Some (JStr "createUser")
    /\ parameters createTestUser =
         [raw (JObj [("username", JStr "sdk_test_user");
                     ("password", JStr "test_password")])]
    /\ field "operation" second = Some again
    /\ field "tag" again = field "tag" createTestUser
    /\ field "operationId" again = field "operationId" createTestUser
    /\ parameters again = parameters createTestUser
    /\ field "response" again = Some (JObj [("statusCode", JNum 409)]).
Proof.
  rewrite table_shape.
  cbn [field lookup_prop static_entries app String.eqb Ascii.eqb Bool.eqb].
  do 5 eexists. split; [reflexivity|].
  split; [reflexivity|]. repeat split; reflexivity.
Qed.

(** ** Execution modes *)

(** A property of every variant follows from a test that computes. *)
Lemma every_variant_check (p : value -> bool) (P : value -> Prop) (tbl : value) :
  (forall variant, p variant = true -> P variant) ->
  forallb (fun kv => forallb p (tests (snd kv))) (own_props tbl) = true ->
  every_variant P tbl.
Proof.
  intros Hp Hall. unfold every_variant.
  rewrite forallb_forall in Hall.
  apply Forall_forall. intros kv Hkv. apply list_elem_of_In in Hkv.
  specialize (Hall kv Hkv). rewrite forallb_forall in Hall.
  apply Forall_forall. intros variant Hv. apply list_elem_of_In in Hv. auto.
Qed.

(** C8, as stated: some variant has neither an operation nor a hook. *)
Lemma some_variant_has_neither_mode :
  ~ every_variant exactly_one_mode (table sample_cluster sample_config sample_heap).
Proof.
  intros Hall. unfold every_variant in Hall. vm_compute in Hall.
  apply Forall_inv in Hall. apply Forall_inv in Hall.
  discriminate Hall.
Qed.

(** C8, amended: no variant of the table has both a declarative
    operation and a customized test; exactly two variants have neither,
    the first of [get /api/v2/tokens] and the only one of
    [post /api/v2/tokens/application], and every other variant has
    exactly one of the two. *)
Theorem no_variant_has_both_modes (c : ClusterDescriptor) (cfg : value) (h : heap) :
  every_variant at_most_one_mode (table c cfg h)
  /\ variants_with_neither (table c cfg h) =
       [("get /api/v2/tokens", 0); ("post /api/v2/tokens/application", 0)]
  /\ every_variant
       (fun variant =>
          has "operation" variant || has "customizedTest" variant = true ->
          exactly_one_mode variant)
       (table c cfg h).
Proof.
  split; [|split].
  - apply (every_variant_check
             (fun v => negb (has "operation" v && has "customizedTest" v))).
    + intros variant. unfold at_most_one_mode. now destruct (_ && _).
    + vm_compute. reflexivity.
  - vm_compute. reflexivity.
  - apply (every_variant_check
             (fun v => xorb (has "operation" v) (has "customizedTest" v)
                       || negb (has "operation" v || has "customizedTest" v))).
    + intros variant. unfold exactly_one_mode.
      destruct (has "operation" variant), (has "customizedTest" variant);
        cbn; intros; congruence.
    + vm_compute. reflexivity.
Qed.

(** ** Parameters taken from earlier results *)

(** The test [already_executedb] decides [already_executed]. *)
Lemma already_executedb_sound (entry : value) (pl : place) (spec : value) :
  already_executedb entry pl spec = true -> already_executed entry pl spec.
Proof.
  unfold already_executedb, already_executed. intros Hb Hfrom. rewrite Hfrom in Hb.
  destruct (resultIndex spec) as [n|]; [|discriminate].
  apply andb_true_iff in Hb as [Hn Hb]. apply Z.leb_le in Hn.
  exists (Z.to_nat n). split; [now rewrite Z2Nat.id|].
  apply orb_true_iff in Hb as [Hb|Hb].
  - apply andb_true_iff in Hb as [Ht Hlt]. apply Nat.ltb_lt in Hlt. now left.
  - apply andb_true_iff in Hb as [Hb Hlt]. apply andb_true_iff in Hb as [Ht Ha].
    apply Nat.ltb_lt in Hlt. now right.
Qed.

(** The property of every parameter follows from its test. *)
Lemma every_parameter_check (tbl : value) :
  forallb
    (fun kv =>
       forallb (fun po => forallb (already_executedb (snd kv) (fst po)) (parameters (snd po)))
         (placed_operations (snd kv)))
    (own_props tbl) = true ->
  every_parameter already_executed tbl.
Proof.
  intros Hall. unfold every_parameter. rewrite forallb_forall in Hall.
  apply Forall_forall. intros kv Hkv. apply list_elem_of_In in Hkv.
  specialize (Hall kv Hkv). rewrite forallb_forall in Hall.
  apply Forall_forall. intros po Hpo. apply list_elem_of_In in Hpo.
  specialize (Hall po Hpo). rewrite forallb_forall in Hall.
  apply Forall_forall. intros spec Hspec. apply list_elem_of_In in Hspec.
  apply already_executedb_sound. auto.
Qed.

(** C9. Every parameter specification of the table that is taken from a
    result refers to an operation that has run when it is resolved: one
    taken from the setup results stands in an entry with more setup
    operations than its index, and is resolved after them; one taken
    from the test results stands in a teardown operation, in an entry
    whose variants up to its index all run a declarative operation.
    There are six such specifications. *)
Theorem fromResult_refers_to_executed (c : ClusterDescriptor) (cfg : value) (h : heap) :
  every_parameter already_executed (table c cfg h)
  /\ fromResult_occurrences (table c cfg h) =
       [ ("get /api/v2/tokens", InAfter 0, "beforeResults", 0%Z);
         ("delete /api/v2/tokens/{token}", InTests 0, "beforeResults", 0%Z);
         ("post /api/v2/tokens/application", InAfter 0, "testResults", 0%Z);
         ("post /api/v2/authn/basic/login", InAfter 0, "testResults", 0%Z);
         ("post /api/v2/users", InAfter 1, "beforeResults", 0%Z);
         ("get /api/v2/storages/{storage}", InTests 0, "beforeResults", 0%Z) ].
Proof.
  split.
  - apply every_parameter_check. vm_compute. reflexivity.
  - vm_compute. reflexivity.
Qed.

(** ** The random suffix of job names *)

(** Assigning a property makes it readable. *)
Lemma lookup_assign_eq (k : string) (v : value) (props : list (string * value)) :
  lookup_prop k (assign k v props) = Some v.
Proof.
  induction props as [|[k' v'] rest IH]; cbn [assign lookup_prop].
  - now rewrite String.eqb_refl.
  - destruct (String.eqb k k') eqn:E; cbn [lookup_prop]; rewrite E; [reflexivity|exact IH].
Qed.

(** [{...a, ...{k: v}}.k] is [v], whatever [a] holds. *)
Lemma field_spread_obj (a : value) (k : string) (v : value) :
  field k (spread_obj a (JObj [(k, v)])) = Some v.
Proof. unfold spread_obj. cbn. apply lookup_assign_eq. Qed.

(** The string [new] makes is eight hexadecimal digits, so it is truthy
    and [get] returns it. *)
Lemma get_after_new (h : heap) : get (snd (new h)) = (fst (new h), snd (new h)).
Proof. reflexivity. Qed.

(** After [get] the field is truthy, so a second [get] changes nothing. *)
Lemma get_twice (h : heap) : get (snd (get h)) = (fst (get h), snd (get h)).
Proof.
  unfold get at 2 3 4. destruct (truthy (data h)) eqn:E.
  - cbn [snd fst]. unfold get. now rewrite E.
  - apply get_after_new.
Qed.

(** The job a [createJob] operation built by [createTestJob] names,
    whatever the job configuration it starts from. *)
Lemma job_name_create (a : value) (suffix name : string) :
  "sdk_test_job" +:+ suffix = name ->
  job_name
    (JObj [("tag", JStr "job"); ("operationId", JStr "createJob");
           ("parameters", JArr [
              raw (spread_obj a (JObj [("name", JStr ("sdk_test_job" +:+ suffix))]))])])
  = Some (JStr name).
Proof.
  intros <-. unfold job_name.
  cbn [operationId_is field lookup_prop String.eqb Ascii.eqb Bool.eqb parameters
       elements raw].
  apply field_spread_obj.
Qed.

(** Proof steps for a list that is written out: one goal per element. *)
Ltac each_element tac :=
  repeat first [ apply List.Forall_nil | apply List.Forall_cons; [tac|] ].

(** Runs the construction of the table, keeping the merged job
    configuration and the random digits as they are. *)
Ltac evaluate_table :=
  rewrite table_shape;
  unfold job_entries, createTestJob, updateTestJobExecutionType, bind, ret, get, new,
    randomBytes;
  lazy -[spread_obj String.append hex_digit N.div N.modulo Byte.to_N static_entries raw].

(** One entry about jobs: find it, list its operations, and compare the
    job each of them names. *)
Ltac solve_one_job :=
  unfold one_job; cbn [nth job_keys];
  do 3 eexists;
  split; [evaluate_table; reflexivity|];
  split; [lazy -[spread_obj String.append hex_digit N.div N.modulo Byte.to_N raw];
          reflexivity|];
  split; [reflexivity|];
  split; [each_element ltac:(reflexivity)|];
  split; [discriminate|];
  apply List.Forall_cons;
  [ apply job_name_create; reflexivity
  | each_element ltac:(vm_compute; reflexivity) ].

(** C10. On the random-string singleton, [get] after [new] returns the
    string [new] returned and leaves the heap as it is, and so does [get]
    after [get].  Hence, whatever the heap the table is built from, each
    of the six entries about jobs builds its [createJob] operation first,
    with the job name ending in the string of the [new] of that entry,
    and every other operation of the entry, in the tests and in the
    teardown, names the same job. *)
Theorem job_name_suffix_shared (c : ClusterDescriptor) (cfg : value) (h : heap) :
  get (snd (new h)) = (fst (new h), snd (new h))
  /\ get (snd (get h)) = (fst (get h), snd (get h))
  /\ Forall
       (fun i =>
          one_job (table c cfg h) (nth i job_keys "")
            ("sdk_test_job" +:+ fst (new (heap_after i h))))
       (seq 0 6).
Proof.
  split; [apply get_after_new|]. split; [apply get_twice|].
  cbn [seq].
  each_element ltac:(solve_one_job).
Qed.

End TableFacts.

(* ================================================================== *)
(** * Further properties of the helpers of [utils.ts] *)
(* ================================================================== *)

Module UtilsMore.
Import JS Utils UtilsSpec UtilsMoreSpec UtilsFacts.

(** ** More on splitting *)

(** A separator at the end adds an empty last piece. *)
Lemma split_trailing (sep : ascii) (s : string) :
  split sep (s +:+ String sep EmptyString) = split sep s ++ [EmptyString].
Proof.
  induction s as [|c s' IH].
  - rewrite append_empty. cbn [split]. now rewrite Ascii.eqb_refl.
  - rewrite append_cons. cbn [split]. rewrite IH.
    destruct (Ascii.eqb c sep); [reflexivity|].
    destruct (split sep s') as [|piece pieces] eqn:E; [|reflexivity].
    pose proof (split_length sep s') as Hl. rewrite E in Hl. discriminate.
Qed.

(** The pieces of a string hold no more of a character than the string. *)
Lemma split_without_char (c sep : ascii) (s : string) :
  occurrences c s = 0 -> Forall (fun piece => occurrences c piece = 0) (split sep s).
Proof.
  induction s as [|c' s' IH]; cbn [occurrences split]; intros Hn.
  - repeat constructor.
  - assert (Hc : (if Ascii.eqb c' c then 1 else 0) = 0) by lia.
    assert (Hs : occurrences c s' = 0) by lia.
    specialize (IH Hs).
    destruct (Ascii.eqb c' sep).
    + constructor; [reflexivity|exact IH].
    + destruct (split sep s') as [|piece pieces]; [repeat constructor; cbn; lia|].
      inversion IH; subst. constructor; [cbn [occurrences]; lia|assumption].
Qed.

Lemma malformed_colons (entry : string) :
  occurrences ":" entry <> 1 -> malformed entry = true /\ well_formed entry = false.
Proof.
  intros Hn. unfold malformed, well_formed. rewrite split_length.
  destruct (Nat.eqb_spec (S (occurrences ":" entry)) 2); [lia|]. now split.
Qed.

Lemma collected_app (argsMap : gmap string string) (l l' : list string) :
  collected argsMap (l ++ l') = collected (collected argsMap l) l'.
Proof. unfold collected. apply fold_left_app. Qed.

Lemma collected_malformed (argsMap : gmap string string) (l : list string) :
  Forall (fun entry => well_formed entry = false) l -> collected argsMap l = argsMap.
Proof.
  induction 1 as [|entry rest He _ IH]; [reflexivity|].
  unfold collected in *. cbn [fold_left]. now rewrite He.
Qed.

Lemma complaints_repeat (l : list string) :
  List.map complaint l = repeat input_error (length l).
Proof. induction l as [|e l IH]; [reflexivity|]. cbn. now rewrite IH. Qed.

Lemma repeat_snoc {A} (x : A) (n : nat) : repeat x n ++ [x] = repeat x (S n).
Proof. induction n as [|n IH]; [reflexivity|]. cbn. now f_equal. Qed.

(** The run of [jobTemplate] in terms of the number of complaints. *)
Lemma jobTemplate_events `{Platform} (text args : string) (w : world) :
  jobTemplate text (Given args) w =
    (renderString true text (collected ∅ (split ";" args)),
     after_events w
       (template_events (length (List.filter malformed (split ";" args))) text
          (collected ∅ (split ";" args)))).
Proof.
  rewrite jobTemplate_given. unfold template_events. now rewrite complaints_repeat.
Qed.

(** ** Edge cases of [jobTemplate] *)

(** X1. A semicolon at the end of the argument string changes neither
    the mapping nor the outcome of the engine; it costs one more console
    message, for the empty entry after it. *)
Theorem jobTemplate_trailing_semicolon `{Platform} (text args : string) (w : world) :
  exists (argsMap : gmap string string) (complaints : nat),
    jobTemplate text (Given args) w =
      (renderString true text argsMap,
       after_events w (template_events complaints text argsMap))
    /\ jobTemplate text (Given (args +:+ ";")) w =
         (renderString true text argsMap,
          after_events w (template_events (S complaints) text argsMap)).
Proof.
  exists (collected ∅ (split ";" args)),
         (length (List.filter malformed (split ";" args))).
  split; [apply jobTemplate_events|].
  rewrite jobTemplate_events, split_trailing, collected_app.
  rewrite (collected_malformed _ [EmptyString]) by (repeat constructor).
  rewrite List.filter_app, length_app. cbn [List.filter malformed split length negb Nat.eqb].
  now rewrite Nat.add_1_r.
Qed.

(** X2. An argument string without a colon, the empty string included,
    binds nothing: the engine is asked to render the text with the empty
    mapping, after one console message per entry, that is one more than
    there are semicolons. *)
Theorem jobTemplate_without_colon `{Platform} (text args : string) (w : world) :
  occurrences ":" args = 0 ->
  jobTemplate text (Given args) w =
    (renderString true text ∅,
     after_events w (template_events (S (occurrences ";" args)) text ∅)).
Proof.
  intros Hn. rewrite jobTemplate_events.
  assert (Hall : Forall (fun entry => occurrences ":" entry <> 1) (split ";" args)).
  { eapply Forall_impl; [apply (split_without_char ":" ";" args Hn)|].
    intros entry He. cbv beta in He |- *. rewrite He. discriminate. }
  rewrite collected_malformed, filter_all_true, split_length; [reflexivity| |].
  - eapply Forall_impl; [exact Hall|]. intros entry He. now apply malformed_colons.
  - eapply Forall_impl; [exact Hall|]. intros entry He. now apply malformed_colons.
Qed.

Lemma jobTemplate_without_colon_witness :
  jobTemplate (platform := Reference.node) "Hello {{name}}" (Given "") (World ∅ ∅ []) =
    (Ok "Hello ",
     World ∅ ∅ [NunjucksConfigure true; ConsoleLog "Arguments input error";
                NunjucksRenderString "Hello {{name}}" ∅]).
Proof.
  exact (jobTemplate_without_colon (H := Reference.node) "Hello {{name}}" ""
           (World ∅ ∅ []) eq_refl).
Defined.

(** X3. A value cannot hold a colon: a single entry whose value has one
    is skipped with a console message, and its key stays unbound. *)
Theorem jobTemplate_colon_in_value `{Platform} (text key val : string) (w : world) :
  occurrences ";" key = 0 -> occurrences ";" val = 0 ->
  occurrences ":" val <> 0 ->
  jobTemplate text (Given (key +:+ ":" +:+ val)) w =
    (renderString true text ∅, after_events w (template_events 1 text ∅)).
Proof.
  intros Hk Hv Hc. rewrite jobTemplate_events.
  assert (Hs : split ";" (key +:+ ":" +:+ val) = [key +:+ ":" +:+ val]).
  { apply split_without. rewrite !occurrences_append, Hk, Hv. reflexivity. }
  assert (Hm : occurrences ":" (key +:+ ":" +:+ val) <> 1).
  { rewrite !occurrences_append. cbn [occurrences Ascii.eqb Bool.eqb]. lia. }
  destruct (malformed_colons _ Hm) as [Hbad Hwf].
  rewrite Hs. cbn [List.filter]. rewrite Hbad.
  rewrite (collected_malformed _ [_]) by (repeat constructor; exact Hwf).
  reflexivity.
Qed.

Lemma jobTemplate_colon_in_value_witness :
  fst (jobTemplate (platform := Reference.node) "See {{url}}"
         (Given "url:http://host/path") (World ∅ ∅ [])) = Ok "See ".
Proof.
  assert (Hc : occurrences ":" "http://host/path" <> 0) by discriminate.
  exact (f_equal fst
           (jobTemplate_colon_in_value (H := Reference.node) "See {{url}}" "url"
              "http://host/path" (World ∅ ∅ []) eq_refl eq_refl Hc)).
Defined.

(** ** The order of the entries *)

Lemma filter_permutation {A} (p : A -> bool) (l l' : list A) :
  Permutation l l' -> Permutation (List.filter p l) (List.filter p l').
Proof.
  induction 1 as [|x l l' _ IH|x y l|l l' l'' _ IH1 _ IH2]; cbn [List.filter].
  - constructor.
  - destruct (p x); [now constructor|exact IH].
  - destruct (p x), (p y); try reflexivity. apply perm_swap.
  - now transitivity (List.filter p l').
Qed.

(** A filter that lets less through keeps the keys apart. *)
Lemma NoDup_filtered_less {A B} (p q : A -> bool) (f : A -> B) (l : list A) :
  (forall x, q x = true -> p x = true) ->
  NoDup (List.map f (List.filter p l)) -> NoDup (List.map f (List.filter q l)).
Proof.
  intros Hqp. induction l as [|x l IH]; cbn [List.filter]; [trivial|].
  destruct (q x) eqn:Eq.
  - rewrite (Hqp x Eq). cbn [List.map]. intros Hnd.
    apply NoDup_cons in Hnd as [Hin Hnd]. apply NoDup_cons. split; [|now apply IH].
    intros Hx. apply Hin. apply list_elem_of_In in Hx. apply list_elem_of_In.
    apply in_map_iff in Hx as (y & Hy & Hiny). apply in_map_iff. exists y.
    split; [exact Hy|]. apply filter_In in Hiny as [Hiny Hq]. apply filter_In.
    split; [exact Hiny|now apply Hqp].
  - destruct (p x); [|exact IH]. cbn [List.map]. intros Hnd.
    apply NoDup_cons in Hnd as [_ Hnd]. now apply IH.
Qed.

(** With no key bound twice, the value of a key does not depend on the
    order of the entries. *)
Lemma mapped_permutation (l l' : list string) (key : string) :
  Permutation l l' -> NoDup (List.map before_colon l) ->
  mapped l key = mapped l' key.
Proof.
  induction 1 as [|x l l' Hp IH|x y l|l l' l'' Hp1 IH1 Hp2 IH2]; intros Hnd.
  - reflexivity.
  - cbn [mapped]. cbn [List.map] in Hnd. apply NoDup_cons in Hnd as [_ Hnd].
    now rewrite (IH Hnd).
  - cbn [mapped]. destruct (mapped l key); [reflexivity|].
    destruct (String.eqb (before_colon x) key) eqn:Ex,
             (String.eqb (before_colon y) key) eqn:Ey; try reflexivity.
    apply String.eqb_eq in Ex, Ey. cbn [List.map] in Hnd.
    apply NoDup_cons in Hnd as [Hin _]. destruct Hin. rewrite Ey, <- Ex. left.
  - rewrite (IH1 Hnd). apply IH2.
    assert (Hm : List.map before_colon l ≡ₚ List.map before_colon l')
      by now apply Permutation_map.
    rewrite <- Hm. exact Hnd.
Qed.

(** X4. The order of the entries does not matter as long as no key is
    bound twice: two argument strings whose entries are the same up to
    order give the same rendered text. *)
Theorem jobTemplate_entry_order `{Platform} (text : string) (entries entries' : list string)
    (w : world) :
  entries <> [] ->
  Forall (fun entry => occurrences ";" entry = 0) entries ->
  Permutation entries entries' ->
  NoDup (List.map before_colon (List.filter well_formed entries)) ->
  fst (jobTemplate text (Given (Reference.join ";" entries)) w) =
    fst (jobTemplate text (Given (Reference.join ";" entries')) w).
Proof.
  intros Hne Hall Hperm Hnd.
  assert (Hne' : entries' <> []).
  { intros ->. apply Permutation_nil_r in Hperm. contradiction. }
  assert (Hall' : Forall (fun entry => occurrences ";" entry = 0) entries').
  { rewrite <- Hperm. exact Hall. }
  rewrite !jobTemplate_given. cbn [fst].
  rewrite (split_join ";" entries Hne Hall), (split_join ";" entries' Hne' Hall').
  f_equal. apply map_eq. intros key. rewrite !collected_lookup.
  rewrite (mapped_permutation _ _ key (filter_permutation binds _ _ Hperm));
    [reflexivity|].
  apply (NoDup_filtered_less well_formed); [|exact Hnd].
  intros entry He. rewrite well_formed_one_colon_eq. unfold binds in He.
  now apply andb_prop in He as [-> _].
Qed.

Lemma jobTemplate_entry_order_witness :
  fst (jobTemplate (platform := Reference.node) "{{a}}-{{b}}" (Given "a:1;b:2")
         (World ∅ ∅ [])) =
  fst (jobTemplate (platform := Reference.node) "{{a}}-{{b}}" (Given "b:2;a:1")
         (World ∅ ∅ [])).
Proof.
  assert (Hne : ["a:1"; "b:2"] <> []) by discriminate.
  assert (Hall : Forall (fun entry => occurrences ";" entry = 0) ["a:1"; "b:2"]).
  { repeat constructor. }
  assert (Hperm : Permutation ["a:1"; "b:2"] ["b:2"; "a:1"]) by apply perm_swap.
  assert (Hnd : NoDup (List.map before_colon (List.filter well_formed ["a:1"; "b:2"]))).
  { cbn. repeat constructor; [|apply not_elem_of_nil].
    intros Hin. apply list_elem_of_singleton in Hin. discriminate. }
  exact (jobTemplate_entry_order (H := Reference.node) "{{a}}-{{b}}" ["a:1"; "b:2"]
           ["b:2"; "a:1"] (World ∅ ∅ []) Hne Hall Hperm Hnd).
Defined.

(** ** The file helpers as operations on the store *)

(** The result of [readJson] depends on the files only. *)
Lemma readJson_result_files `{Platform} (pth : string) (val : option value)
    (w w' : world) :
  files w !! pth = files w' !! pth ->
  fst (readJson pth val w) = fst (readJson pth val w').
Proof.
  intros Hf. unfold readJson, try_catch, bind, fs_readJson, log, ret, throw.
  rewrite Hf. destruct (files w' !! pth) as [text|]; [destruct (JSON_parse text)|];
    cbn [fst]; try reflexivity; now destruct (eq_null value_is_null val).
Qed.

(** X5. [readJson] only reads: whether it returns the value of the file,
    returns the fallback or throws, the directories and files are as
    before, one event is added to the trace, and asking again gives the
    same result. *)
Theorem readJson_reads_only `{Platform} (pth : string) (val : option value) (w : world) :
  dirs (snd (readJson pth val w)) = dirs w
  /\ files (snd (readJson pth val w)) = files w
  /\ (exists e : event, trace (snd (readJson pth val w)) = trace w ++ [e])
  /\ fst (readJson pth val (snd (readJson pth val w))) = fst (readJson pth val w).
Proof.
  assert (Hframe : dirs (snd (readJson pth val w)) = dirs w
                   /\ files (snd (readJson pth val w)) = files w
                   /\ exists e : event, trace (snd (readJson pth val w)) = trace w ++ [e]).
  { unfold readJson, try_catch, bind, fs_readJson, log, ret, throw.
    destruct (files w !! pth) as [text|]; [destruct (JSON_parse text)|];
      cbn [fst snd]; try destruct (eq_null value_is_null val);
      cbn [snd dirs files trace emit]; repeat split; eexists; reflexivity. }
  destruct Hframe as (Hd & Hf & He).
  split; [exact Hd|]. split; [exact Hf|]. split; [exact He|].
  apply readJson_result_files. now rewrite Hf.
Qed.




End UtilsMore.

(* ================================================================== *)
(** * Further properties of the table and of the random strings *)
(* ================================================================== *)

Module TableMore.
Import JS ApiTestCases TableSpec TableMoreSpec TableFacts.

(** ** Random strings *)

Lemma hex_digit_lower (d : N) : lower_hex (hex_digit d) = true.
Proof.
  destruct d as [|p]; [reflexivity|].
  do 4 (destruct p as [p|p|]; try reflexivity).
Qed.

Lemma toString_hex_length (buffer : list byte) :
  String.length (toString_hex buffer) = 2 * length buffer.
Proof.
  induction buffer as [|b rest IH]; [reflexivity|].
  cbn [toString_hex String.length length]. rewrite IH. lia.
Qed.

Lemma toString_hex_digits (buffer : list byte) :
  Forall (fun c => lower_hex c = true) (list_ascii_of_string (toString_hex buffer)).
Proof.
  induction buffer as [|b rest IH]; [constructor|].
  cbn [toString_hex list_ascii_of_string].
  constructor; [apply hex_digit_lower|]. constructor; [apply hex_digit_lower|exact IH].
Qed.

(** The two digits of a byte give the byte back. *)
Lemma of_hex_byte (b : byte) :
  Byte.of_N (16 * hex_value (hex_digit (Byte.to_N b / 16))
             + hex_value (hex_digit (Byte.to_N b mod 16))) = Some b.
Proof. destruct b; vm_compute; reflexivity. Qed.

Lemma of_hex_toString_hex (buffer : list byte) : of_hex (toString_hex buffer) = buffer.
Proof.
  induction buffer as [|b rest IH]; [reflexivity|].
  cbn [toString_hex of_hex]. now rewrite of_hex_byte, IH.
Qed.

(** X8. [new] returns eight lower-case hexadecimal digits, keeps them as
    the data of the singleton, and moves on by the four bytes it drew. *)
Theorem new_makes_eight_hex_digits (h : heap) :
  String.length (fst (new h)) = 8
  /\ Forall (fun c => lower_hex c = true) (list_ascii_of_string (fst (new h)))
  /\ snd (new h) = Heap (Some (fst (new h))) (entropy h) (4 + drawn h).
Proof.
  change (fst (new h)) with (toString_hex (next_bytes h)).
  split; [|split].
  - rewrite toString_hex_length. reflexivity.
  - apply toString_hex_digits.
  - reflexivity.
Qed.

(** X9. Two calls of [new] return the same string exactly when they drew
    the same four bytes: the string determines the bytes. *)
Theorem new_strings_equal_iff (h h' : heap) :
  fst (new h) = fst (new h') <-> next_bytes h = next_bytes h'.
Proof.
  change (fst (new h)) with (toString_hex (next_bytes h)).
  change (fst (new h')) with (toString_hex (next_bytes h')).
  split; [|now intros ->].
  intros Heq. apply (f_equal of_hex) in Heq. now rewrite !of_hex_toString_hex in Heq.
Qed.

(** ** Building the table *)

Lemma forallb_Forall {A} (p : A -> bool) (l : list A) :
  forallb p l = true -> Forall (fun x => p x = true) l.
Proof.
  intros Hall. rewrite forallb_forall in Hall.
  apply Forall_forall. intros x Hx. apply Hall. now apply list_elem_of_In.
Qed.

(** X10. Building the table calls [new] six times, once per entry about
    jobs, and nothing else changes the heap: 24 bytes are drawn, and the
    singleton is left holding the suffix of the last entry. *)
Theorem table_draws_six_suffixes (c : ClusterDescriptor) (cfg : value) (h : heap) :
  snd (ApiDefaultTestCases c cfg h) = heap_after 6 h
  /\ drawn (snd (ApiDefaultTestCases c cfg h)) = 24 + drawn h
  /\ data (snd (ApiDefaultTestCases c cfg h)) = Some (fst (new (heap_after 5 h))).
Proof.
  assert (Hrun : snd (ApiDefaultTestCases c cfg h) = heap_after 6 h).
  { unfold ApiDefaultTestCases, job_entries, createTestJob, updateTestJobExecutionType,
      bind, ret, get, new, randomBytes.
    lazy -[spread_obj String.append hex_digit N.div N.modulo Byte.to_N static_entries raw].
    reflexivity. }
  rewrite Hrun. repeat split.
Qed.

(** X11. The table has 23 entries; their keys are pairwise different,
    and each is one of the methods get, post, put and delete, a space,
    and a path under /api/v2/. *)
Theorem table_keys_are_routes (c : ClusterDescriptor) (cfg : value) (h : heap) :
  length (own_props (table c cfg h)) = 23
  /\ NoDup (keys_of (table c cfg h))
  /\ Forall (fun key => is_route key = true) (keys_of (table c cfg h)).
Proof.
  split; [vm_compute; reflexivity|]. split.
  - apply (bool_decide_unpack _). vm_compute. exact I.
  - apply forallb_Forall. vm_compute. reflexivity.
Qed.

(** X12. Every setup and teardown operation names what to call, with a
    tag among the six client categories and an operation name; an
    operation written in a variant either does the same or leaves both
    out, to be taken from the key of the entry. *)
Theorem operations_name_their_call (c : ClusterDescriptor) (cfg : value) (h : heap) :
  Forall
    (fun kv =>
       Forall (fun op => complete op = true) (before (snd kv) ++ after (snd kv))
       /\ Forall (fun op => complete op || by_key op = true) (test_operations (snd kv)))
    (own_props (table c cfg h)).
Proof.
  apply (Forall_impl
           (fun kv =>
              forallb complete (before (snd kv) ++ after (snd kv))
              && forallb (fun op => complete op || by_key op) (test_operations (snd kv))
              = true)).
  - apply forallb_Forall. vm_compute. reflexivity.
  - intros kv Hkv. apply andb_true_iff in Hkv as [H1 H2].
    split; now apply forallb_Forall.
Qed.

(** X13. Every parameter specification of the table has one of the two
    shapes and nothing else: type raw with a value, or type fromResult
    with a result list, a non-empty path of keys and indices, and an
    index that is not negative. *)
Theorem parameters_are_specifications (c : ClusterDescriptor) (cfg : value) (h : heap) :
  every_parameter (fun _ _ spec => is_parameter_spec spec = true) (table c cfg h).
Proof.
  unfold every_parameter.
  apply (Forall_impl
           (fun kv =>
              forallb (fun po => forallb is_parameter_spec (parameters (snd po)))
                (placed_operations (snd kv)) = true)).
  - apply forallb_Forall. vm_compute. reflexivity.
  - intros kv Hkv. apply forallb_Forall in Hkv.
    eapply Forall_impl; [exact Hkv|]. intros po Hpo. now apply forallb_Forall.
Qed.


(** ** The names of the jobs *)

Lemma job_name_created (a : value) (suffix : string) :
  job_name
    (JObj [("tag", JStr "job"); ("operationId", JStr "createJob");
           ("parameters", JArr [
              raw (spread_obj a (JObj [("name", JStr ("sdk_test_job" +:+ suffix))]))])])
  = Some (JStr ("sdk_test_job" +:+ suffix)).
Proof. now apply job_name_create. Qed.

(** The jobs the table creates are named after the six strings drawn. *)
Lemma created_jobs_names (c : ClusterDescriptor) (cfg : value) (h : heap) :
  created_jobs (table c cfg h) =
    List.map (fun i => JStr ("sdk_test_job" +:+ toString_hex (next_bytes (heap_after i h))))
      (seq 0 6).
Proof.
  unfold created_jobs. rewrite table_shape.
  unfold job_entries, createTestJob, updateTestJobExecutionType, bind, ret, get, new,
    randomBytes.
  lazy -[spread_obj String.append hex_digit N.div N.modulo Byte.to_N raw job_name].
  rewrite !job_name_created. reflexivity.
Qed.

(** X15. The six entries about jobs create six jobs, and these have
    pairwise different names whenever the six draws of four bytes are
    pairwise different. *)
Theorem job_names_differ (c : ClusterDescriptor) (cfg : value) (h : heap) :
  NoDup (List.map (fun i => next_bytes (heap_after i h)) (seq 0 6)) ->
  length (created_jobs (table c cfg h)) = 6
  /\ NoDup (created_jobs (table c cfg h)).
Proof.
  intros Hnd. rewrite created_jobs_names. split; [reflexivity|].
  change (List.map
            (fun i => JStr ("sdk_test_job" +:+ toString_hex (next_bytes (heap_after i h))))
            (seq 0 6))
    with (List.map (fun bytes => JStr ("sdk_test_job" +:+ toString_hex bytes))
            (List.map (fun i => next_bytes (heap_after i h)) (seq 0 6))).
  assert (Hinj : Inj (=) (=) (fun bytes => JStr ("sdk_test_job" +:+ toString_hex bytes))).
  { intros b1 b2 Heq. injection Heq as Heq.
    change (toString_hex b1 = toString_hex b2) in Heq.
    apply (f_equal of_hex) in Heq. now rewrite !of_hex_toString_hex in Heq. }
  exact (NoDup_fmap_2 _ _ Hnd).
Qed.

Lemma job_names_differ_witness :
  NoDup (created_jobs (table sample_cluster sample_config counting_heap)).
Proof.
  assert (Hnd : NoDup (List.map (fun i => next_bytes (heap_after i counting_heap))
                         (seq 0 6))).
  { pose (byte_dec := Byte.byte_eq_dec : EqDecision byte).
    apply (bool_decide_unpack _). vm_compute. exact I. }
  exact (proj2 (job_names_differ sample_cluster sample_config counting_heap Hnd)).
Defined.

End TableMore.

(* ================================================================== *)
(** * Properties of the customized tests *)
(* ================================================================== *)

Module HookFacts.
Import JS ApiTestCases TableSpec CustomizedTests HookSpec TableMore.

(** ** What the hooks accept and reject *)

(** X16. The hooks that expect a call to be refused only look at the
    error when one is thrown: against a service that refuses nothing,
    [getTokensWithUnauthorizedUser] passes, [createUserByNonadminToken]
    passes, and, given a setup result, [createUserByApplicationToken]
    passes. *)
Theorem refusal_hooks_accept_success `{Service} (c : ClusterDescriptor) (test : value)
    (results : option IOperationResults) (st : state) :
  accepts_everything ->
  fst (getTokensWithUnauthorizedUser c test results st) = Returned tt
  /\ fst (createUserByNonadminToken c test results st) = Returned tt
  /\ (forall given, results = Some given -> one_before_result given ->
        fst (createUserByApplicationToken c test results st) = Returned tt).
Proof.
  intros (Htokens & Hlogin & Hcreate). split; [|split].
  - unfold getTokensWithUnauthorizedUser, try_catch, bind, await.
    destruct (Htokens (Config (Some (JStr "unauthorized user token")) true
                         (rest_server_uri c)) (remote st)) as [v Hv].
    destruct (token_getTokens _ _) as [[v'|e] st']; cbn [fst] in Hv; [reflexivity|].
    discriminate.
  - unfold createUserByNonadminToken.
    unfold bind at 1. unfold try_catch at 1. unfold bind at 1. unfold await at 1.
    match goal with |- context [user_createUser ?cl ?u (remote st)] =>
      destruct (Hcreate cl u (remote st)) as [v1 Hv1];
      destruct (user_createUser cl u (remote st)) as [[v1'|e1] st1]; cbn [fst] in Hv1;
      [|discriminate]
    end.
    cbn [ret]. unfold bind at 1. unfold await at 1. cbn [remote teardowns].
    match goal with |- context [authn_basicLogin ?cl ?u ?p st1] =>
      destruct (Hlogin cl u p st1) as [info [Hinfo Hobj]];
      destruct (authn_basicLogin cl u p st1) as [[info'|e2] st2]; cbn [fst] in Hinfo;
      [injection Hinfo as ->|discriminate]
    end.
    unfold bind at 1. unfold property. destruct info; try discriminate Hobj;
      cbn [ret]; unfold bind at 1; unfold try_catch at 1; unfold bind at 1;
      unfold await at 1; cbn [remote teardowns];
      match goal with |- context [user_createUser ?cl ?u st2] =>
        destruct (Hcreate cl u st2) as [v3 Hv3];
        destruct (user_createUser cl u st2) as [[v3'|e3] st3]; cbn [fst] in Hv3;
        [reflexivity|discriminate]
      end.
  - intros given -> (r & rest & Hbefore & Hobj).
    unfold createUserByApplicationToken, before_token. rewrite Hbefore. cbn [head].
    unfold bind at 1. unfold property.
    destruct r; try discriminate Hobj;
      cbn [ret]; unfold try_catch, bind, await; cbn [remote teardowns];
      match goal with |- context [user_createUser ?cl ?u (remote st)] =>
        destruct (Hcreate cl u (remote st)) as [v Hv];
        destruct (user_createUser cl u (remote st)) as [[v'|e] st']; cbn [fst] in Hv;
        [reflexivity|discriminate]
      end.
Qed.

Lemma refusal_hooks_accept_success_witness :
  fst (getTokensWithUnauthorizedUser (service := open_service) sample_cluster (JObj [])
         (Some sample_results) sample_state) = Returned tt
  /\ fst (createUserByNonadminToken (service := open_service) sample_cluster (JObj [])
            (Some sample_results) sample_state) = Returned tt
  /\ fst (createUserByApplicationToken (service := open_service) sample_cluster (JObj [])
            (Some sample_results) sample_state) = Returned tt.
Proof.
  assert (Hopen : accepts_everything (H := open_service)).
  { split; [|split]; intros; eexists; cbn; eauto. }
  assert (Hone : one_before_result sample_results).
  { exists (JObj [("token", JStr "t")]), []. split; reflexivity. }
  destruct (refusal_hooks_accept_success (H := open_service) sample_cluster (JObj [])
              (Some sample_results) sample_state Hopen) as (H1 & H2 & H3).
  split; [exact H1|]. split; [exact H2|]. exact (H3 sample_results eq_refl Hone).
Defined.

(** X17. [logoutWithIncorrectToken] cannot pass: it makes one logout
    call with the unauthorized token; if the call throws, the hook throws
    that error, and if the call returns, the expectation that the
    returned value throws fails.  It registers no teardown. *)
Theorem logoutWithIncorrectToken_never_passes `{Service} (c : ClusterDescriptor)
    (test : value) (results : option IOperationResults) (st : state) :
  let call :=
    authn_basicLogout
      (Config (Some (JStr "unauthorized user token")) true (rest_server_uri c))
      (remote st) in
  logoutWithIncorrectToken c test results st =
    (Threw (match fst call with
            | inl _ => AssertionError
            | inr e => Remote e
            end),
     State (snd call) (teardowns st)).
Proof.
  cbv zeta. unfold logoutWithIncorrectToken, bind, await, expect_to_throw, throw.
  destruct (authn_basicLogout _ _) as [[v|e] st']; reflexivity.
Qed.

(** ** Teardowns *)

Section Teardowns.
Context `{Service}.

Lemma quiet_ret {A} (a : A) : quiet (ret a).
Proof. intros st. reflexivity. Qed.

Lemma quiet_throw {A} (t : thrown) : quiet (throw (A := A) t).
Proof. intros st. reflexivity. Qed.

Lemma quiet_await (call : server -> (value + client_error) * server) : quiet (await call).
Proof. intros st. unfold await. now destruct (call (remote st)) as [[v|e] st']. Qed.

Lemma quiet_bind {A B} (c : Test A) (k : A -> Test B) :
  quiet c -> (forall a, quiet (k a)) -> quiet (bind c k).
Proof.
  intros Hc Hk st. unfold bind. specialize (Hc st).
  destruct (c st) as [[a|t] st']; cbn [snd] in *; [|exact Hc].
  now rewrite (Hk a st').
Qed.

Lemma quiet_try_catch {A} (c : Test A) (handler : thrown -> Test A) :
  quiet c -> (forall t, quiet (handler t)) -> quiet (try_catch c handler).
Proof.
  intros Hc Hh st. unfold try_catch. specialize (Hc st).
  destruct (c st) as [[a|t] st']; cbn [snd] in *; [exact Hc|].
  now rewrite (Hh t st').
Qed.

Lemma quiet_property (k : string) (o : option value) : quiet (property k o).
Proof. destruct o as [[]|]; first [apply quiet_ret | apply quiet_throw]. Qed.

Lemma quiet_expect_equal (v : option value) (s : string) : quiet (expect_equal v s).
Proof.
  unfold expect_equal. destruct (strictly_equals s v);
    [apply quiet_ret|apply quiet_throw].
Qed.

Lemma quiet_expect_instanceof (err : thrown) (cls : client_error -> bool) :
  quiet (expect_instanceof err cls).
Proof.
  unfold expect_instanceof. destruct (instanceof cls err);
    [apply quiet_ret|apply quiet_throw].
Qed.

Lemma registers_after (t : teardown) : registers_on_return t (after t).
Proof. intros st. reflexivity. Qed.

Lemma registers_bind {A B} (t : teardown) (c : Test A) (k : A -> Test B) :
  quiet c -> (forall a, registers_on_return t (k a)) -> registers_on_return t (bind c k).
Proof.
  intros Hc Hk st. unfold bind. specialize (Hc st).
  destruct (c st) as [[a|e] st']; cbn [fst snd] in *; [|exact Hc].
  now rewrite (Hk a st'), Hc.
Qed.

End Teardowns.

(** X18. [createUserByNonadminToken] registers the deletion of the user
    it creates as its last step: the deletion is registered exactly when
    the hook passes, and when the hook throws, at whatever step, no
    teardown is registered. *)
Theorem nonadmin_teardown_only_on_pass `{Service} (c : ClusterDescriptor)
    (test : value) (results : option IOperationResults) (st : state) :
  teardowns (snd (createUserByNonadminToken c test results st)) =
    match fst (createUserByNonadminToken c test results st) with
    | Returned _ =>
        teardowns st
        ++ [DeleteUser (Config (Some (JStr (token c))) true (rest_server_uri c))
              "nonadminTestUser"]
    | Threw _ => teardowns st
    end.
Proof.
  revert st. change (registers_on_return
                       (DeleteUser (Config (Some (JStr (token c))) true (rest_server_uri c))
                          "nonadminTestUser")
                       (createUserByNonadminToken c test results)).
  unfold createUserByNonadminToken.
  apply registers_bind.
  { apply quiet_try_catch.
    - apply quiet_bind; [apply quiet_await|intros; apply quiet_ret].
    - intros err. apply quiet_bind; [apply quiet_property|].
      intros code. destruct (negb _); [apply quiet_throw|apply quiet_ret]. }
  intros _. apply registers_bind; [apply quiet_await|]. intros info.
  apply registers_bind; [apply quiet_property|]. intros info_token.
  apply registers_bind; [|intros; apply registers_after].
  apply quiet_try_catch.
  - apply quiet_bind; [apply quiet_await|intros; apply quiet_ret].
  - intros err. apply quiet_bind;
      [apply quiet_expect_equal|intros; apply quiet_expect_instanceof].
Qed.

(** ** The hooks and the table *)

(** X19. Two hooks read the token of the first setup result,
    [logoutWithCorrectToken] and [createUserByApplicationToken]: without
    such a result they throw a [TypeError] before any call is made, and
    the other three hooks do not look at the results at all.  The table
    names the two only in entries whose first setup operation is a login
    or the creation of an application token. *)
Theorem token_hooks_have_their_setup `{Service} (c : ClusterDescriptor) (cfg : value)
    (h : heap) (test : value) (st : state) :
  (forall results,
     no_before_result results = true ->
     logoutWithCorrectToken c test results st = (Threw TypeError, st)
     /\ createUserByApplicationToken c test results st = (Threw TypeError, st))
  /\ (forall results results',
        getTokensWithUnauthorizedUser c test results st =
          getTokensWithUnauthorizedUser c test results' st
        /\ logoutWithIncorrectToken c test results st =
             logoutWithIncorrectToken c test results' st
        /\ createUserByNonadminToken c test results st =
             createUserByNonadminToken c test results' st)
  /\ Forall
       (fun kv =>
          existsb reads_before_token (tests (snd kv)) = true ->
          first_before_gives_token (snd kv) = true)
       (own_props (table c cfg h))
  /\ entries_with reads_before_token (table c cfg h) =
       ["delete /api/v2/authn/basic/logout"; "post /api/v2/users"].
Proof.
  split; [|split; [|split]].
  - intros results Hnone.
    unfold logoutWithCorrectToken, createUserByApplicationToken, before_token, bind.
    destruct results as [given|]; [|split; reflexivity].
    cbn [no_before_result] in Hnone.
    destruct (beforeResults given) as [[|[] rest]|]; try discriminate Hnone;
      split; reflexivity.
  - intros results results'. repeat split.
  - apply (Forall_impl
             (fun kv =>
                implb (existsb reads_before_token (tests (snd kv)))
                  (first_before_gives_token (snd kv)) = true)).
    + apply forallb_Forall. vm_compute. reflexivity.
    + intros kv Himp Hex. now rewrite Hex in Himp.
  - vm_compute. reflexivity.
Qed.

Lemma token_hooks_have_their_setup_witness :
  logoutWithCorrectToken (service := open_service) sample_cluster (JObj [])
    (Some {| beforeResults := Some []; testResults := Some [] |}) sample_state
  = (Threw TypeError, sample_state).
Proof.
  destruct (token_hooks_have_their_setup (H := open_service) sample_cluster sample_config
              sample_heap (JObj []) sample_state) as (Hnone & _).
  exact (proj1 (Hnone (Some {| beforeResults := Some []; testResults := Some [] |})
                  eq_refl)).
Defined.

(** X20. The hooks the table names are the methods of [CustomizedTests]:
    each of the five methods is named by exactly one variant. *)
Theorem hooks_named_are_methods `{Service} (c : ClusterDescriptor) (cfg : value) (h : heap) :
  hook_names (table c cfg h) ≡ₚ List.map fst (CustomizedTests c).
Proof.
  assert (Hnames : hook_names (table c cfg h) =
                   [ "getTokensWithUnauthorizedUser"; "logoutWithCorrectToken";
                     "logoutWithIncorrectToken"; "createUserByApplicationToken";
                     "createUserByNonadminToken" ]).
  { vm_compute. reflexivity. }
  rewrite Hnames. cbn [CustomizedTests List.map fst].
  do 3 apply perm_skip. apply perm_swap.
Qed.

End HookFacts.
